(** * easy-filebeat: the line reader, the file-identity probe and the harvester

    A shallow embedding of the Go sources of chuntaojun/easy-filebeat.
    The repository carries two generations of the line reader:
    - the one of the sub-package (2021) reads with
      [bufio.Reader.ReadSlice] (module [SliceReader] below);
    - the one of the root package (2022) reads with [bufio.Scanner] and
      [bufio.ScanLines] (module [ScanReader] below); this is the reader the
      harvester, which lives in the root package, constructs.

    Go strings and byte slices are modelled as [string] (a sequence of
    8-bit characters), [int64] as [Z] with explicit wrap-around, Go errors
    as the inductive type [error], and a run-time panic or a blocked
    condition wait as constructors of [outcome]. *)

From Stdlib Require Import ZArith List String Ascii Bool Lia.
From Stdlib Require Import Permutation Sorted DecimalString DecimalN.
Import ListNotations.

Local Open Scope string_scope.
Local Open Scope Z_scope.

(** ** Machine integers *)

Definition int64_min : Z := - 2 ^ 63.
Definition int64_max : Z := 2 ^ 63 - 1.

Definition in_int64 (z : Z) : Prop := int64_min <= z <= int64_max.

(** Two's complement wrap-around of Go's [int64] arithmetic. *)
Definition wrap64 (z : Z) : Z := (z + 2 ^ 63) mod 2 ^ 64 - 2 ^ 63.

Definition int64_add (a b : Z) : Z := wrap64 (a + b).

(** [int64(len(msg))] *)
Definition len (s : string) : Z := Z.of_nat (String.length s).

(** ** Byte strings *)

Definition delimLabel : ascii := "010"%char.

Definition CR : ascii := "013"%char.

Fixpoint str_take (n : nat) (s : string) : string :=
  match n, s with
  | S n', String c s' => String c (str_take n' s')
  | _, _ => EmptyString
  end.

Fixpoint str_drop (n : nat) (s : string) : string :=
  match n, s with
  | S n', String _ s' => str_drop n' s'
  | _, _ => s
  end.

(** [bytes.IndexByte] *)
Fixpoint IndexByte (s : string) (c : ascii) : option nat :=
  match s with
  | EmptyString => None
  | String d s' =>
      if Ascii.eqb d c then Some O
      else match IndexByte s' c with
           | Some i => Some (S i)
           | None => None
           end
  end.

(** [strings.Split(s, string(sep))] for a one-byte separator. *)
Fixpoint strings_Split (s : string) (sep : ascii) : list string :=
  match s with
  | EmptyString => [EmptyString]
  | String c s' =>
      if Ascii.eqb c sep then EmptyString :: strings_Split s' sep
      else match strings_Split s' sep with
           | h :: t => String c h :: t
           | [] => [String c EmptyString]
           end
  end.

(** [res[0]] of a slice that [strings.Split] returned (never empty). *)
Definition first_field (res : list string) : string := hd EmptyString res.

(** [bufio.dropCR]: drop one trailing carriage return. *)
Fixpoint dropCR (s : string) : string :=
  match s with
  | EmptyString => EmptyString
  | String c EmptyString => if Ascii.eqb c CR then EmptyString else s
  | String c s' => String c (dropCR s')
  end.

(** ** Errors *)

Inductive errno : Type :=
| ENOENT | EACCES | EIO | EINVAL | EMFILE | ESTALE.

Inductive error : Type :=
| ErrorRename                 (* errors.New("log already rename") *)
| ErrorRemoved                (* errors.New("log already removed") *)
| ErrorEmpty                  (* errors.New("no content") *)
| ErrorClosed                 (* errors.New("reader already closed") *)
| EmptyWaitFiles              (* errors.New("empty wait files") *)
| io_EOF
| os_ErrClosed                (* "file already closed" *)
| bufio_ErrBufferFull
| bufio_ErrTooLong
| json_InvalidUnmarshalError
| json_DecodeError
| regexp_Error
| PathError (e : errno).      (* *fs.PathError wrapping a system error *)

(** [errors.Is(err, os.ErrNotExist)] *)
Definition is_ErrNotExist (err : error) : bool :=
  match err with
  | PathError ENOENT => true
  | _ => false
  end.

(** [errors.Is(err, io.EOF)] *)
Definition is_EOF (err : error) : bool :=
  match err with
  | io_EOF => true
  | _ => false
  end.

(** How a call ends: it returns, it panics, or it blocks for ever on a
    condition nobody signals. *)
Inductive outcome (A : Type) : Type :=
| Returns (a : A)
| Panics
| Blocks.

Arguments Returns {A} a.
Arguments Panics {A}.
Arguments Blocks {A}.

(** ** The operating system seen by the reader *)

(** [syscall.Stat_t], the three fields the code reads. *)
Record Stat_t : Type := {
  Ino : Z;
  Dev : Z;
  Nlink : Z
}.

(** [os.FileInfo] *)
Record FileInfo : Type := {
  Name : string;
  ModTime : Z;
  Sys : Stat_t
}.

(** The file system at the moment of a call.  Kernel file objects are
    numbered; a path resolves to an object or to a system error, and an
    object has a status, its bytes, and the error (if any) that a read
    past its last byte reports instead of a clean end of file. *)
Record World : Type := {
  w_open : string -> errno + nat;
  w_fstat : nat -> errno + FileInfo;
  w_data : nat -> string;
  w_ioerr : nat -> option errno;
  w_readdir : string -> errno + list FileInfo
}.

(** [*os.File] *)
Record File : Type := {
  fd_obj : nat;
  fd_name : string;
  fd_flag : Z;
  fd_pos : Z;
  fd_closed : bool
}.

Definition O_RDONLY : Z := 0.

(** [os.OpenFile(path, flag, perm)]; only read-only opens occur. *)
Definition os_OpenFile (w : World) (path : string) (flag perm : Z)
  : error + File :=
  match w_open w path with
  | inl e => inl (PathError e)
  | inr k =>
      inr {| fd_obj := k; fd_name := path; fd_flag := flag;
             fd_pos := 0; fd_closed := false |}
  end.

(** [f.Seek(offset, io.SeekStart)]: a negative target is refused and the
    position stays where it was. *)
Definition File_Seek (f : File) (offset : Z) : File * option error :=
  if fd_closed f then (f, Some os_ErrClosed)
  else if offset <? 0 then (f, Some (PathError EINVAL))
  else ({| fd_obj := fd_obj f; fd_name := fd_name f; fd_flag := fd_flag f;
           fd_pos := offset; fd_closed := false |}, None).

(** [f.Close()]: "Close will return an error if it has already been
    called." *)
Definition File_Close (f : File) : File * option error :=
  if fd_closed f then (f, Some os_ErrClosed)
  else ({| fd_obj := fd_obj f; fd_name := fd_name f; fd_flag := fd_flag f;
           fd_pos := fd_pos f; fd_closed := true |}, None).

(** [f.Stat()] *)
Definition File_Stat (w : World) (f : File) : error + FileInfo :=
  if fd_closed f then inl os_ErrClosed
  else match w_fstat w (fd_obj f) with
       | inl e => inl (PathError e)
       | inr fi => inr fi
       end.

(** The [FileInfo] of [fi, _ := f.Stat()]: nil when the call failed. *)
Definition ignore_err {A : Type} (r : error + A) : option A :=
  match r with
  | inl _ => None
  | inr a => Some a
  end.

(** [os.SameFile]: false when either argument is nil. *)
Definition os_SameFile (a b : option FileInfo) : bool :=
  match a, b with
  | Some x, Some y =>
      (Dev (Sys x) =? Dev (Sys y)) && (Ino (Sys x) =? Ino (Sys y))
  | _, _ => false
  end.

(** The bytes a reader wrapped around [f] can still get from the file,
    and the error that ends them. *)
Definition File_bytes (w : World) (f : File) : string :=
  if fd_closed f then EmptyString
  else str_drop (Z.to_nat (fd_pos f)) (w_data w (fd_obj f)).

Definition File_end (w : World) (f : File) : error :=
  if fd_closed f then os_ErrClosed
  else match w_ioerr w (fd_obj f) with
       | Some e => PathError e
       | None => io_EOF
       end.

(** ** sys.go *)

Record StateOS : Type := {
  Inode : Z;
  Device : Z
}.

Definition GetOSState (info : FileInfo) : StateOS :=
  {| Inode := Ino (Sys info); Device := Dev (Sys info) |}.

Definition StateOS_isSame (fs state : StateOS) : bool :=
  (Inode fs =? Inode state) && (Device fs =? Device state).

(** [strconv.AppendUint(buf, v, 10)] *)
Definition AppendUint (buf : string) (v : Z) : string :=
  (buf ++ NilEmpty.string_of_uint (N.to_uint (Z.to_N v)))%string.

Definition StateOS_String (fs : StateOS) : string :=
  let current := AppendUint EmptyString (Inode fs) in
  let current := (current ++ "-")%string in
  AppendUint current (Device fs).

Definition readOpen (w : World) (path : string) : error + File :=
  let flag := O_RDONLY in
  let perm := 0 in
  os_OpenFile w path flag perm.

Definition isRemoved (w : World) (f : File) : bool :=
  match File_Stat w f with
  | inl _ => true
  | inr stat => Nlink (Sys stat) =? 0
  end.

Definition isSameFile (w : World) (a b : File) : bool :=
  let a_s := ignore_err (File_Stat w a) in
  let b_s := ignore_err (File_Stat w b) in
  os_SameFile a_s b_s.

(** ** bufio *)

(** A [bufio.Reader] over a file, seen from outside: [rd_off] is the number
    of bytes the caller has taken out of it.  The buffer holds at most
    [defaultBufSize] bytes. *)
Record bufio_Reader : Type := {
  rd_off : nat
}.

Definition defaultBufSize : nat := 4096.

(** [b.ReadSlice(delim)] on the bytes [all] that the file can deliver,
    ended by the error [fin].  The delimiter is found when it lies within
    one buffer; a buffer without delimiter is handed out whole with
    [ErrBufferFull]; data cut short by the end of the input is handed out
    together with the read error. *)
Definition ReadSlice (all : string) (fin : error) (b : bufio_Reader)
  : (string * option error) * bufio_Reader :=
  let rest := str_drop (rd_off b) all in
  match IndexByte (str_take defaultBufSize rest) delimLabel with
  | Some i =>
      ((str_take (S i) rest, None), {| rd_off := rd_off b + S i |})
  | None =>
      if (defaultBufSize <=? String.length rest)%nat
      then ((str_take defaultBufSize rest, Some bufio_ErrBufferFull),
            {| rd_off := rd_off b + defaultBufSize |})
      else ((rest, Some fin), {| rd_off := rd_off b + String.length rest |})
  end.

(** A [bufio.Scanner] over a file.  [sc_start] counts the bytes already
    turned into tokens.  Once a read has failed the error is kept in
    [sc_err], nothing is read any more, and [sc_end] is the number of bytes
    that had been taken from the file by then. *)
Record bufio_Scanner : Type := {
  sc_start : nat;
  sc_end : nat;
  sc_err : option error;
  sc_token : string
}.

Definition MaxScanTokenSize : nat := Z.to_nat (64 * 1024).

(** [bufio.ScanLines] *)
Definition ScanLines (data : string) (atEOF : bool) : nat * option string :=
  if atEOF && (String.length data =? 0)%nat then (O, None)
  else match IndexByte data delimLabel with
       | Some i => (S i, Some (dropCR (str_take i data)))
       | None =>
           if atEOF then (String.length data, Some (dropCR data))
           else (O, None)
       end.

(** One pass of [Scan] with the data at hand and no further read. *)
Definition Scan_held (all : string) (s : bufio_Scanner) (e : error)
  : bool * bufio_Scanner :=
  let data := str_take (sc_end s - sc_start s) (str_drop (sc_start s) all) in
  match ScanLines data true with
  | (advance, Some token) =>
      (true, {| sc_start := sc_start s + advance; sc_end := sc_end s;
                sc_err := Some e; sc_token := token |})
  | (_, None) =>
      (false, {| sc_start := O; sc_end := O;
                 sc_err := Some e; sc_token := EmptyString |})
  end.

(** [s.Scan()]: a line is a token when its delimiter lies within
    [MaxScanTokenSize] bytes; that many bytes without delimiter end the
    scan with [ErrTooLong]; when the input ends, [ScanLines] is asked once
    more with [atEOF] set and hands out what is left. *)
Definition Scan (all : string) (fin : error) (s : bufio_Scanner)
  : bool * bufio_Scanner :=
  match sc_err s with
  | Some e => Scan_held all s e
  | None =>
      let rest := str_drop (sc_start s) all in
      match ScanLines (str_take MaxScanTokenSize rest) false with
      | (advance, Some token) =>
          (true, {| sc_start := sc_start s + advance; sc_end := sc_end s;
                    sc_err := None; sc_token := token |})
      | (_, None) =>
          if (MaxScanTokenSize <=? String.length rest)%nat
          then (false, {| sc_start := sc_start s;
                          sc_end := sc_start s + MaxScanTokenSize;
                          sc_err := Some bufio_ErrTooLong;
                          sc_token := EmptyString |})
          else Scan_held all
                 {| sc_start := sc_start s; sc_end := String.length all;
                    sc_err := Some fin; sc_token := sc_token s |} fin
      end
  end.

(** [s.Text()] *)
Definition Text (s : bufio_Scanner) : string := sc_token s.

(** [s.Err()] *)
Definition Err (s : bufio_Scanner) : option error :=
  match sc_err s with
  | Some io_EOF => None
  | other => other
  end.

(** ** The line reader of the sub-package, built on [ReadSlice] *)

Module SliceReader.

(** [readOffset *int64] points into the caller's memory (the harvester's
    [meta.CurOffset], a local variable in the test): the cell is threaded
    through [Next] as an argument and a result. *)
Record LineReader : Type := {
  closed : Z;
  originName : string;
  curFile : File;
  reader : option bufio_Reader
}.

(** The position handed to [f.Seek]. *)
Definition seekTarget (offset : Z) : Z :=
  if offset =? 0 then offset else int64_add offset 1.

Definition NewLineReader (w : World) (name : string) (offset : Z)
  : error + LineReader :=
  match readOpen w name with
  | inl err => inl err
  | inr f =>
      let f := fst (File_Seek f (seekTarget offset)) in
      inr {| closed := 0; originName := name; curFile := f;
             reader := Some {| rd_off := O |} |}
  end.

Definition CurFile (line : LineReader) : File := curFile line.

Definition Offset (line : LineReader) (readOffset : Z) : Z := readOffset.

Definition Close (line : LineReader) : option error * LineReader :=
  let (f, err) := File_Close (curFile line) in
  (err, {| closed := 1; originName := originName line; curFile := f;
           reader := None |}).

Definition set_reader (line : LineReader) (b : bufio_Reader) : LineReader :=
  {| closed := closed line; originName := originName line;
     curFile := curFile line; reader := Some b |}.

(** The result is the returned pair, the reader afterwards and the
    offset cell afterwards. *)
Definition Next (w : World) (line : LineReader) (readOffset : Z)
  : outcome (string * option error * LineReader * Z) :=
  if closed line =? 1 then
    Returns (EmptyString, Some ErrorClosed, line, readOffset)
  else
    match reader line with
    | None => Panics
    | Some b =>
        let '((msg, err), b) :=
          ReadSlice (File_bytes w (curFile line))
                    (File_end w (curFile line)) b in
        let line := set_reader line b in
        match err with
        | None =>
            let res := strings_Split msg delimLabel in
            let readOffset := int64_add readOffset (len msg) in
            Returns (first_field res, None, line, readOffset)
        | Some err =>
            if is_EOF err then
              match readOpen w (originName line) with
              | inl err' =>
                  if is_ErrNotExist err'
                  then Returns (EmptyString, Some ErrorRemoved,
                                line, readOffset)
                  else Returns (EmptyString, Some err', line, readOffset)
              | inr f =>
                  if isRemoved w (curFile line)
                  then Returns (EmptyString, Some ErrorRemoved,
                                line, readOffset)
                  else if negb (isSameFile w (curFile line) f)
                  then Returns (EmptyString, Some ErrorRename,
                                line, readOffset)
                  else Returns (EmptyString, Some err, line, readOffset)
              end
            else Returns (EmptyString, Some err, line, readOffset)
        end
    end.

End SliceReader.

(** ** The line reader of the root package, built on [bufio.Scanner] *)

Module ScanReader.

Record LineReader : Type := {
  closed : Z;
  originName : string;
  curFile : File;
  reader : option bufio_Scanner
}.

Definition seekTarget (offset : Z) : Z :=
  if offset =? 0 then offset else int64_add offset 1.

Definition NewScanner : bufio_Scanner :=
  {| sc_start := O; sc_end := O; sc_err := None; sc_token := EmptyString |}.

Definition NewLineReader (w : World) (name : string) (offset : Z)
  : error + LineReader :=
  match readOpen w name with
  | inl err => inl err
  | inr f =>
      let f := fst (File_Seek f (seekTarget offset)) in
      let scanner := NewScanner in
      inr {| closed := 0; originName := name; curFile := f;
             reader := Some scanner |}
  end.

Definition CurFile (line : LineReader) : File := curFile line.

Definition Offset (line : LineReader) (readOffset : Z) : Z := readOffset.

Definition Close (line : LineReader) : option error * LineReader :=
  let (f, err) := File_Close (curFile line) in
  (err, {| closed := 1; originName := originName line; curFile := f;
           reader := None |}).

Definition set_reader (line : LineReader) (s : bufio_Scanner) : LineReader :=
  {| closed := closed line; originName := originName line;
     curFile := curFile line; reader := Some s |}.

Definition Next (w : World) (line : LineReader) (readOffset : Z)
  : outcome (string * option error * LineReader * Z) :=
  if closed line =? 1 then
    Returns (EmptyString, Some ErrorClosed, line, readOffset)
  else
    match reader line with
    | None => Panics
    | Some s =>
        let (ok, s) :=
          Scan (File_bytes w (curFile line))
               (File_end w (curFile line)) s in
        let line := set_reader line s in
        if ok then
          let msg := Text s in
          let res := strings_Split msg delimLabel in
          let readOffset := int64_add readOffset (len msg) in
          Returns (first_field res, None, line, readOffset)
        else
          let err := match Err s with
                     | None => io_EOF
                     | Some e => e
                     end in
          if is_EOF err then
            match readOpen w (originName line) with
            | inl err' =>
                if is_ErrNotExist err'
                then Returns (EmptyString, Some ErrorRemoved,
                              line, readOffset)
                else Returns (EmptyString, Some err', line, readOffset)
            | inr f =>
                if isRemoved w (curFile line)
                then Returns (EmptyString, Some ErrorRemoved,
                              line, readOffset)
                else if negb (isSameFile w (curFile line) f)
                then Returns (EmptyString, Some ErrorRename,
                              line, readOffset)
                else Returns (EmptyString, Some err, line, readOffset)
            end
          else Returns (EmptyString, Some err, line, readOffset)
    end.

End ScanReader.

(** ** Test_ReaderLine: the file of the test *)

Definition nl : string := String delimLabel EmptyString.

Definition test_lines : list string :=
  ["test_line_log=1"; "test_line_log=2"; "test_line_log=3";
   "test_line_log=4"; "test_line_log=5"; "test_line_log=6";
   "test_line_log=7"; "test_line_log=8"; "test_line_log=9";
   "test_line_log=10"]%string.

Definition test_file : string :=
  fold_right (fun l acc => (l ++ nl ++ acc)%string) EmptyString test_lines.

Definition test_stat : FileInfo :=
  {| Name := "test_linereader_file.log"; ModTime := 1637670900;
     Sys := {| Ino := 4242; Dev := 64; Nlink := 1 |} |}.

(** A directory that holds the test file and nothing else. *)
Definition test_world : World :=
  {| w_open := fun path =>
       if String.eqb path "./test_linereader_file.log" then inr 1%nat
       else inl ENOENT;
     w_fstat := fun _ => inr test_stat;
     w_data := fun _ => test_file;
     w_ioerr := fun _ => None;
     w_readdir := fun _ => inr [test_stat] |}.

(** Call [next] while it returns records, at most [n] times. *)
Fixpoint drain {R : Type}
    (next : R -> Z -> outcome (string * option error * R * Z))
    (n : nat) (r : R) (off : Z) : list string * option (R * Z) :=
  match n with
  | O => ([], Some (r, off))
  | S n' =>
      match next r off with
      | Returns (msg, None, r', off') =>
          let (msgs, fin) := drain next n' r' off' in (msg :: msgs, fin)
      | Returns (_, Some _, r', off') => ([], Some (r', off'))
      | _ => ([], None)
      end
  end.

(** ** metadata.go *)

Record Metadata : Type := {
  CurFile : string;
  CurFileINode : string;
  CurOffset : Z;
  PreFileINode : string
}.

(** [Metadata{}] *)
Definition Metadata_zero : Metadata :=
  {| CurFile := EmptyString; CurFileINode := EmptyString;
     CurOffset := 0; PreFileINode := EmptyString |}.

(** ** Library code the harvester calls *)

(** What [json.Unmarshal] is given as its second argument. *)
Inductive unmarshal_arg : Type :=
| ByValue (m : Metadata)
| ByPointer (m : Metadata).

(** The packages [encoding/json], [path/filepath], [regexp] and [sort] are
    not part of the repository: the functions the harvester uses are
    parameters of the model.  [json_decode] is the decoding of a valid
    document into the struct a pointer refers to. *)
Record Lib : Type := {
  json_Marshal : Metadata -> string;
  json_Valid : string -> bool;
  json_decode : string -> Metadata -> error + Metadata;
  filepath_Dir : string -> string;
  filepath_Base : string -> string;
  regexp_Compile : string -> option (string -> bool);
  sort_Slice : (FileInfo -> FileInfo -> bool) -> list FileInfo -> list FileInfo
}.

(** [json.Unmarshal(data, v)]: "If the pointer is nil or not a pointer,
    Unmarshal returns an InvalidUnmarshalError."  The result is the error
    and the struct behind [v] afterwards. *)
Definition json_Unmarshal (lib : Lib) (data : string) (v : unmarshal_arg)
  : option error * Metadata :=
  match v with
  | ByValue m =>
      if json_Valid lib data then (Some json_InvalidUnmarshalError, m)
      else (Some json_DecodeError, m)
  | ByPointer m =>
      if json_Valid lib data then
        match json_decode lib data m with
        | inl err => (Some err, m)
        | inr m' => (None, m')
        end
      else (Some json_DecodeError, m)
  end.

(** What [sort.Slice] promises for a [less] that is a strict weak order:
    the result is a rearrangement of the slice in which no element is
    [less] than one before it.  The order of elements that are not
    [less] than each other is not specified. *)
Definition sort_Slice_ok
    (sort : (FileInfo -> FileInfo -> bool) -> list FileInfo -> list FileInfo)
    (less : FileInfo -> FileInfo -> bool) (l : list FileInfo) : Prop :=
  Permutation l (sort less l) /\
  StronglySorted (fun a b => less b a = false) (sort less l).

(** The checkpoint document on disk: what [ioutil.ReadFile(metaPath)]
    returns, and the errors (if any) that [os.Create(metaPath)] and
    [ioutil.WriteFile(metaPath, ...)] run into. *)
Record MetaDisk : Type := {
  md_read : errno + string;
  md_create : option errno;
  md_write : option errno
}.

Definition put_doc (d : MetaDisk) (data : string) : MetaDisk :=
  {| md_read := inr data; md_create := md_create d; md_write := md_write d |}.

(** Modelled from the spec: the sink interface ([Sink], with its method
    [OnMessage]) is declared in a file of the repository that is not at
    hand.  "Sink: external consumer exposing a single on_message(record)
    operation"; a sink is represented by the records it has been given. *)
Record Sink : Type := {
  received : list string
}.

Definition OnMessage (s : Sink) (msg : string) : Sink :=
  {| received := received s ++ [msg] |}.

(** ** The harvester *)

Module Harvester.

Record Config : Type := {
  Path : string;
  MetaPath : string
}.

(** [curReader] is the [atomic.Value]: [None] while nothing has been
    stored in it.  The reader's [readOffset] points at [meta.CurOffset],
    so every call of the reader is given that field and its result is
    written back to it.  [logged] is what [OnError] handed to the
    logger. *)
Record harvester : Type := {
  cfg : Config;
  curReader : option ScanReader.LineReader;
  meta : Metadata;
  sinks : list Sink;
  waitDealFiles : list FileInfo;
  logged : list error
}.

Definition set_curReader (beater : harvester)
    (r : option ScanReader.LineReader) : harvester :=
  {| cfg := cfg beater; curReader := r; meta := meta beater;
     sinks := sinks beater; waitDealFiles := waitDealFiles beater;
     logged := logged beater |}.

Definition set_meta (beater : harvester) (m : Metadata) : harvester :=
  {| cfg := cfg beater; curReader := curReader beater; meta := m;
     sinks := sinks beater; waitDealFiles := waitDealFiles beater;
     logged := logged beater |}.

Definition set_sinks (beater : harvester) (l : list Sink) : harvester :=
  {| cfg := cfg beater; curReader := curReader beater; meta := meta beater;
     sinks := l; waitDealFiles := waitDealFiles beater;
     logged := logged beater |}.

Definition set_waitDealFiles (beater : harvester) (l : list FileInfo)
  : harvester :=
  {| cfg := cfg beater; curReader := curReader beater; meta := meta beater;
     sinks := sinks beater; waitDealFiles := l; logged := logged beater |}.

Definition set_CurOffset (m : Metadata) (off : Z) : Metadata :=
  {| CurFile := CurFile m; CurFileINode := CurFileINode m;
     CurOffset := off; PreFileINode := PreFileINode m |}.

(** The struct literal of [NewHarvester]. *)
Definition new_struct (c : Config) : harvester :=
  {| cfg := c; curReader := None; meta := Metadata_zero; sinks := [];
     waitDealFiles := []; logged := [] |}.

Definition OnError (beater : harvester) (err : error) : harvester :=
  {| cfg := cfg beater; curReader := curReader beater; meta := meta beater;
     sinks := sinks beater; waitDealFiles := waitDealFiles beater;
     logged := logged beater ++ [err] |}.

Definition RegisterSink (beater : harvester) (sink : Sink) : harvester :=
  set_sinks beater (sinks beater ++ [sink]).

Definition initReaderFromMetadata (w : World) (beater : harvester)
  : option error * harvester :=
  if negb (String.eqb (CurFile (meta beater)) EmptyString) then
    match ScanReader.NewLineReader w (CurFile (meta beater))
                                   (CurOffset (meta beater)) with
    | inl err => (Some err, beater)
    | inr r => (None, set_curReader beater (Some r))
    end
  else (None, beater).

(** The second half of [Init], from "根据 metadat 初始化 Reader" on. *)
Definition Init_reader (w : World) (d : MetaDisk) (beater : harvester)
  : option error * harvester * MetaDisk :=
  match initReaderFromMetadata w beater with
  | (Some err, beater) =>
      if negb (is_ErrNotExist err) then (Some err, beater, d)
      else
        let beater := set_meta beater Metadata_zero in
        let (err, beater) := initReaderFromMetadata w beater in
        (err, beater, d)
  | (None, beater) => (None, beater, d)
  end.

(** [json.Unmarshal(data, beater.meta)] is given the struct itself, not
    a pointer to it. *)
Definition Init (lib : Lib) (w : World) (d : MetaDisk) (beater : harvester)
  : option error * harvester * MetaDisk :=
  match md_read d with
  | inl e =>
      let err := PathError e in
      if negb (is_ErrNotExist err) then (Some err, beater, d)
      else match md_create d with
           | Some e' => (Some (PathError e'), beater, d)
           | None => Init_reader w (put_doc d EmptyString) beater
           end
  | inr data =>
      if negb (json_Valid lib data) then (None, beater, d)
      else match json_Unmarshal lib data (ByValue (meta beater)) with
           | (Some err, _) => (Some err, beater, d)
           | (None, _) => Init_reader w d beater
           end
  end.

Definition NewHarvester (lib : Lib) (w : World) (d : MetaDisk) (c : Config)
  : (error + harvester) * MetaDisk :=
  let beater := new_struct c in
  match Init lib w d beater with
  | (Some err, _, d) => (inl err, d)
  | (None, beater, d) => (inr beater, d)
  end.

Definition Close (beater : harvester) : outcome (option error * harvester) :=
  match curReader beater with
  | None => Panics
  | Some r =>
      let (err, r) := ScanReader.Close r in
      Returns (err, set_curReader beater (Some r))
  end.

(** The index of the first entry whose identity string is [cur]. *)
Fixpoint match_pos (cur : string) (source : list FileInfo) : option nat :=
  match source with
  | [] => None
  | item :: rest =>
      if String.eqb cur (StateOS_String (GetOSState item)) then Some O
      else match match_pos cur rest with
           | Some i => Some (S i)
           | None => None
           end
  end.

(** [source[i].ModTime().After(source[j].ModTime())] *)
Definition After (a b : FileInfo) : bool := ModTime a >? ModTime b.

(** [sort] stands for [sort.Slice]. *)
Definition ignoreAlreadDeal
    (sort : (FileInfo -> FileInfo -> bool) -> list FileInfo -> list FileInfo)
    (beater : harvester) (source : list FileInfo) : list FileInfo :=
  let source := sort After source in
  let pos := match match_pos (CurFileINode (meta beater)) source with
             | Some i => i
             | None => List.length source
             end in
  firstn pos source.

Definition loadCurFiles (lib : Lib) (w : World) (beater : harvester)
  : error + list FileInfo :=
  let parentDir := filepath_Dir lib (Path (cfg beater)) in
  match w_readdir w parentDir with
  | inl e => inl (PathError e)
  | inr fList =>
      match regexp_Compile lib (filepath_Base lib (Path (cfg beater))) with
      | None => inl regexp_Error
      | Some regx => inr (filter (fun item => regx (Name item)) fList)
      end
  end.

(** [scans] is what the directory looks like at each successive scan;
    [None] when every one of them leaves nothing to publish. *)
Fixpoint setWaitDealFiles (lib : Lib) (scans : list World)
    (beater : harvester) : option (option error * harvester) :=
  match scans with
  | [] => None
  | w :: later =>
      match loadCurFiles lib w beater with
      | inl err => Some (Some err, beater)
      | inr result =>
          let result := ignoreAlreadDeal (sort_Slice lib) beater result in
          if (List.length result =? 0)%nat
          then setWaitDealFiles lib later beater
          else Some (None, set_waitDealFiles beater result)
      end
  end.

(** [published] is the list the refresher has stored by the time its
    broadcast ends the wait; [None] when no broadcast ever comes.  An
    empty list after the wait makes the index [len-1] panic.  The reader
    that was current is closed and dropped when the new one is stored. *)
Definition initReaderFromWait (w : World)
    (published : option (list FileInfo)) (beater : harvester)
  : outcome (option error * harvester) :=
  match (if (List.length (waitDealFiles beater) =? 0)%nat
         then published else Some (waitDealFiles beater)) with
  | None => Blocks
  | Some files =>
      let beater := set_waitDealFiles beater files in
      match rev files with
      | [] => Panics
      | waitDeal :: _ =>
          let beater :=
            set_meta beater
              {| CurFile := Name waitDeal;
                 CurFileINode := StateOS_String (GetOSState waitDeal);
                 CurOffset := 0;
                 PreFileINode := PreFileINode (meta beater) |} in
          match ScanReader.NewLineReader w (Name waitDeal)
                                         (CurOffset (meta beater)) with
          | inl err => Returns (Some err, beater)
          | inr r => Returns (None, set_curReader beater (Some r))
          end
      end
  end.

Definition switchNextFile (w : World) (published : option (list FileInfo))
    (beater : harvester) : outcome (option error * harvester) :=
  let beater :=
    match curReader beater with
    | Some old => set_curReader beater (Some (snd (ScanReader.Close old)))
    | None => beater
    end in
  let curStatStr := CurFileINode (meta beater) in
  let beater :=
    match match_pos curStatStr (waitDealFiles beater) with
    | Some pos =>
        set_waitDealFiles beater
          (firstn pos (waitDealFiles beater)
           ++ skipn (S pos) (waitDealFiles beater))
    | None => beater
    end in
  initReaderFromWait w published beater.

(** The error of [ioutil.WriteFile] is dropped. *)
Definition reportAndSyncMetadata (lib : Lib) (beater : harvester)
    (d : MetaDisk) : MetaDisk :=
  let data := json_Marshal lib (meta beater) in
  match md_write d with
  | Some _ => d
  | None => put_doc d data
  end.

(** One pass of the reader loop, with the file system and the refresher
    as they are when the pass starts; [None] when [fuel] iterations were
    not enough. *)
Fixpoint innerRun (fuel : nat) (lib : Lib) (w : World)
    (published : option (list FileInfo)) (beater : harvester)
    (d : MetaDisk) : option (outcome (harvester * MetaDisk)) :=
  match fuel with
  | O => None
  | S fuel =>
      match curReader beater with
      | None => Some Panics
      | Some r =>
          match ScanReader.Next w r (CurOffset (meta beater)) with
          | Panics => Some Panics
          | Blocks => Some Blocks
          | Returns (msg, err, r, off) =>
              let beater :=
                set_meta (set_curReader beater (Some r))
                         (set_CurOffset (meta beater) off) in
              match err with
              | Some ErrorRemoved | Some ErrorRename =>
                  match switchNextFile w published beater with
                  | Returns (_, beater) =>
                      innerRun fuel lib w published beater d
                  | Panics => Some Panics
                  | Blocks => Some Blocks
                  end
              | Some io_EOF => Some (Returns (beater, d))
              | Some err => Some (Returns (OnError beater err, d))
              | None =>
                  let beater :=
                    set_sinks beater
                      (map (fun s => OnMessage s msg) (sinks beater)) in
                  let d := reportAndSyncMetadata lib beater d in
                  innerRun fuel lib w published beater d
              end
          end
      end
  end.

End Harvester.

(** ** Inputs used in examples *)

(** The bytes of a file that hold two short lines. *)
Definition two_lines : string := ("a" ++ nl ++ "b" ++ nl)%string.

Definition two_lines_world : World :=
  {| w_open := fun path =>
       if String.eqb path "a.log" then inr 1%nat else inl ENOENT;
     w_fstat := fun _ =>
       inr {| Name := "a.log"; ModTime := 1637670900;
              Sys := {| Ino := 7; Dev := 64; Nlink := 1 |} |};
     w_data := fun _ => two_lines;
     w_ioerr := fun _ => None;
     w_readdir := fun _ => inl ENOENT |}.

(** The number of bytes a [bufio.Scanner] has taken out of its input. *)
Definition scanned (line : ScanReader.LineReader) : option nat :=
  match ScanReader.reader line with
  | Some s => Some (sc_start s)
  | None => None
  end.


(** A directory whose only log is "a.log": the bytes of the file object
    behind the held handle, what opening the path gives now, and the link
    count the held object reports now. *)
Definition a_log_world (data : string) (reopen : errno + nat) (nlink : Z)
  : World :=
  {| w_open := fun path =>
       if String.eqb path "a.log" then reopen else inl ENOENT;
     w_fstat := fun k =>
       inr {| Name := "a.log"; ModTime := 1637670900;
              Sys := {| Ino := 7 + Z.of_nat k; Dev := 64;
                        Nlink := if (k =? 1)%nat then nlink else 1 |} |};
     w_data := fun k => if (k =? 1)%nat then data else EmptyString;
     w_ioerr := fun _ => None;
     w_readdir := fun _ => inl ENOENT |}.

(** ** The outcome at end of file, in the words of the claim *)

Definition link_count_zero (w : World) (f : File) : bool :=
  match File_Stat w f with
  | inr st => Nlink (Sys st) =? 0
  | inl _ => false
  end.

(** "If re-opening the origin path fails with not-exist it returns
    ErrorRemoved; else if the held handle's link count is zero it returns
    ErrorRemoved; else if the re-opened handle is not the same file (by
    inode/device) as the held one it returns ErrorRename; otherwise it
    returns plain EOF." *)
Definition claimed_EOF_outcome (w : World) (origin : string) (held : File)
  : error :=
  let reopened := readOpen w origin in
  if match reopened with
     | inl err => is_ErrNotExist err
     | inr _ => false
     end
  then ErrorRemoved
  else if link_count_zero w held then ErrorRemoved
  else if match reopened with
          | inr f => negb (isSameFile w held f)
          | inl _ => false
          end
  then ErrorRename
  else io_EOF.

(** ** Reader states that the code can produce *)

Inductive reachable : ScanReader.LineReader -> Prop :=
| reach_new (w : World) (name : string) (off : Z) (r : ScanReader.LineReader) :
    ScanReader.NewLineReader w name off = inr r -> reachable r
| reach_Next (w : World) (r r' : ScanReader.LineReader) (off off' : Z)
    (msg : string) (err : option error) :
    reachable r ->
    ScanReader.Next w r off = Returns (msg, err, r', off') ->
    reachable r'
| reach_Close (r : ScanReader.LineReader) :
    reachable r -> reachable (snd (ScanReader.Close r)).

(** The error a scanner keeps is not [ErrorEmpty]. *)
Definition scan_kept (s : bufio_Scanner) : Prop := sc_err s <> Some ErrorEmpty.

(** A harvester whose current reader, if any, is one the code produced,
    and whose logger was never handed [err]. *)
Definition never_logged (err : error) (beater : Harvester.harvester) : Prop :=
  (forall r, Harvester.curReader beater = Some r -> reachable r) /\
  ~ In err (Harvester.logged beater).

(** A directory with the retired "a.log" and its successor "b.log". *)
Definition two_logs_world : World :=
  {| w_open := fun path =>
       if String.eqb path "a.log" then inr 1%nat
       else if String.eqb path "b.log" then inr 2%nat
       else inl ENOENT;
     w_fstat := fun k =>
       inr {| Name := if (k =? 1)%nat then "a.log" else "b.log";
              ModTime := 1637670900 + Z.of_nat k;
              Sys := {| Ino := 7 + Z.of_nat k; Dev := 64; Nlink := 1 |} |};
     w_data := fun k => if (k =? 1)%nat then two_lines else EmptyString;
     w_ioerr := fun _ => None;
     w_readdir := fun _ => inl ENOENT |}.

Definition b_log : FileInfo :=
  {| Name := "b.log"; ModTime := 1637670902;
     Sys := {| Ino := 9; Dev := 64; Nlink := 1 |} |}.

Definition a_log : FileInfo :=
  {| Name := "a.log"; ModTime := 1637670901;
     Sys := {| Ino := 8; Dev := 64; Nlink := 1 |} |}.

Definition old_log : FileInfo :=
  {| Name := "a.log.1"; ModTime := 1637670000;
     Sys := {| Ino := 5; Dev := 64; Nlink := 1 |} |}.

(** A harvester that has read "a.log" to its end and knows of "b.log". *)
Definition at_end_of_a_log : Harvester.harvester :=
  {| Harvester.cfg := {| Harvester.Path := "a.log";
                         Harvester.MetaPath := "meta.json" |};
     Harvester.curReader :=
       Some {| ScanReader.closed := 0; ScanReader.originName := "a.log";
               ScanReader.curFile :=
                 {| fd_obj := 1; fd_name := "a.log"; fd_flag := O_RDONLY;
                    fd_pos := 0; fd_closed := false |};
               ScanReader.reader :=
                 Some {| sc_start := 0; sc_end := 0; sc_err := Some io_EOF;
                         sc_token := EmptyString |} |};
     Harvester.meta :=
       {| CurFile := "a.log"; CurFileINode := "8-64"; CurOffset := 2;
          PreFileINode := EmptyString |};
     Harvester.sinks := [];
     Harvester.waitDealFiles := [b_log];
     Harvester.logged := [] |}.

(** A checkpoint: three lines of the test file delivered. *)
Definition checkpoint_48 : Metadata :=
  {| CurFile := "a.log"; CurFileINode := "8-64"; CurOffset := 48;
     PreFileINode := EmptyString |}.

(** ** A sort to run examples with *)

Fixpoint insert_sorted (less : FileInfo -> FileInfo -> bool) (x : FileInfo)
    (l : list FileInfo) : list FileInfo :=
  match l with
  | [] => [x]
  | y :: t => if less x y then x :: l else y :: insert_sorted less x t
  end.

Fixpoint insertion_sort (less : FileInfo -> FileInfo -> bool)
    (l : list FileInfo) : list FileInfo :=
  match l with
  | [] => []
  | x :: t => insert_sorted less x (insertion_sort less t)
  end.

(** ** Files made of lines *)

(** The bytes of a file to which [lines] were written, each followed by
    the delimiter. *)
Fixpoint write_lines (lines : list string) : string :=
  match lines with
  | [] => EmptyString
  | l :: rest => (l ++ nl ++ write_lines rest)%string
  end.

(** A line without delimiter that, with its delimiter, fits [size]
    bytes. *)
Definition line_within (size : nat) (l : string) : Prop :=
  IndexByte l delimLabel = None /\ (String.length l < size)%nat.

(** The sum of the lengths of [records]. *)
Definition total_len (records : list string) : Z :=
  fold_right (fun r acc => len r + acc) 0 records.

(** [n] times the byte [c]. *)
Fixpoint str_repeat (c : ascii) (n : nat) : string :=
  match n with
  | O => EmptyString
  | S n' => String c (str_repeat c n')
  end.

(** ** A directory to scan *)

(** A directory whose listing is [entries]; none of them can be opened. *)
Definition listing (entries : list FileInfo) : World :=
  {| w_open := fun _ => inl ENOENT;
     w_fstat := fun _ => inl ENOENT;
     w_data := fun _ => EmptyString;
     w_ioerr := fun _ => None;
     w_readdir := fun _ => inr entries |}.

(** Library functions to run a scan with: every expression compiles, and
    matches the names it is a prefix of. *)
Definition scan_lib : Lib :=
  {| json_Marshal := fun _ => EmptyString;
     json_Valid := fun _ => false;
     json_decode := fun _ m => inr m;
     filepath_Dir := fun _ => ".";
     filepath_Base := fun p => p;
     regexp_Compile := fun pat => Some (String.prefix pat);
     sort_Slice := insertion_sort |}.

(** After a rotation: the file that was "a.log" goes by another name, and
    a new "a.log" has appeared. *)
Definition rotated_log : FileInfo :=
  {| Name := "a.log.0"; ModTime := 1637670901;
     Sys := {| Ino := 8; Dev := 64; Nlink := 1 |} |}.

Definition fresh_log : FileInfo :=
  {| Name := "a.log"; ModTime := 1637670950;
     Sys := {| Ino := 11; Dev := 64; Nlink := 1 |} |}.
(** * Properties *)

(** Evaluate both sides of an equation between closed terms. *)
Ltac run_code := vm_compute; reflexivity.

(** ** Integers and byte strings *)

Lemma wrap64_small (z : Z) : in_int64 z -> wrap64 z = z.
Proof.
  unfold in_int64, int64_min, int64_max, wrap64. intros H.
  rewrite Z.mod_small; lia.
Qed.

Lemma len_nonneg (s : string) : 0 <= len s.
Proof. unfold len. lia. Qed.

Lemma IndexByte_take (n : nat) (s : string) (c : ascii) (i : nat) :
  IndexByte (str_take n s) c = Some i -> IndexByte s c = Some i.
Proof.
  revert s i. induction n as [|n IH]; intros s i; simpl.
  - destruct s; discriminate.
  - destruct s as [|d s']; simpl; [discriminate|].
    destruct (Ascii.eqb d c); [auto|].
    destruct (IndexByte (str_take n s') c) eqn:E; [|discriminate].
    intros H. rewrite (IH _ _ E). exact H.
Qed.

Lemma take_length_index (s : string) (c : ascii) (i : nat) :
  IndexByte s c = Some i ->
  String.length (str_take i s) = i /\ String.length (str_take (S i) s) = S i.
Proof.
  revert i. induction s as [|d s' IH]; intros i; simpl; [discriminate|].
  destruct (Ascii.eqb d c).
  - intros [= <-]. simpl. destruct s'; auto.
  - destruct (IndexByte s' c) as [j|] eqn:E; [|discriminate].
    intros [= <-]. destruct (IH j eq_refl) as [H1 H2].
    split; simpl; [now rewrite H1 | now rewrite <- H2].
Qed.

Lemma Split_line (s : string) (c : ascii) (i : nat) :
  IndexByte s c = Some i ->
  first_field (strings_Split (str_take (S i) s) c) = str_take i s.
Proof.
  unfold first_field. revert i.
  induction s as [|d s' IH]; intros i; [discriminate|].
  cbn [IndexByte]. destruct (Ascii.eqb d c) eqn:Edc.
  - intros [= <-]. simpl. now rewrite Edc.
  - destruct (IndexByte s' c) as [j|] eqn:E; [|discriminate].
    intros [= <-]. specialize (IH j eq_refl).
    change (str_take (S (S j)) (String d s'))
      with (String d (str_take (S j) s')).
    cbn [strings_Split]. rewrite Edc.
    destruct (strings_Split (str_take (S j) s') c) as [|h t];
      simpl in *; now rewrite IH.
Qed.

Lemma Split_plain (s : string) (c : ascii) :
  IndexByte s c = None -> strings_Split s c = [s].
Proof.
  induction s as [|d s' IH]; simpl; [reflexivity|].
  destruct (Ascii.eqb d c); [discriminate|].
  destruct (IndexByte s' c); [discriminate|].
  intros _. now rewrite IH.
Qed.

Lemma IndexByte_prefix (s : string) (c : ascii) (i : nat) :
  IndexByte s c = Some i -> IndexByte (str_take i s) c = None.
Proof.
  revert i. induction s as [|d s' IH]; intros i; simpl; [discriminate|].
  destruct (Ascii.eqb d c) eqn:Edc.
  - intros [= <-]. reflexivity.
  - destruct (IndexByte s' c) as [j|] eqn:E; [|discriminate].
    intros [= <-]. simpl. rewrite Edc. now rewrite (IH j).
Qed.

Lemma IndexByte_dropCR (s : string) :
  IndexByte s delimLabel = None -> IndexByte (dropCR s) delimLabel = None.
Proof.
  induction s as [|d s' IH]; [reflexivity|].
  cbn [IndexByte]. destruct (Ascii.eqb d delimLabel) eqn:Ed; [discriminate|].
  destruct (IndexByte s' delimLabel) eqn:E; [discriminate|]. intros _.
  destruct s' as [|d' s''].
  - simpl. destruct (Ascii.eqb d CR); simpl; [reflexivity|now rewrite Ed].
  - change (dropCR (String d (String d' s'')))
      with (String d (dropCR (String d' s''))).
    cbn [IndexByte]. rewrite Ed. now rewrite IH.
Qed.

(** A token of [ScanLines] holds no delimiter. *)
Lemma ScanLines_token (data : string) (atEOF : bool) (adv : nat)
    (tok : string) :
  ScanLines data atEOF = (adv, Some tok) -> IndexByte tok delimLabel = None.
Proof.
  unfold ScanLines.
  destruct (atEOF && (String.length data =? 0)%nat); [discriminate|].
  destruct (IndexByte data delimLabel) as [i|] eqn:E.
  - intros [= _ <-]. apply IndexByte_dropCR. now apply IndexByte_prefix.
  - destruct atEOF; [|discriminate].
    intros [= _ <-]. now apply IndexByte_dropCR.
Qed.

(** ** What a successful [Next] does to the offset *)

Lemma Scan_held_token (all : string) (s s' : bufio_Scanner) (e : error) :
  Scan_held all s e = (true, s') -> IndexByte (sc_token s') delimLabel = None.
Proof.
  unfold Scan_held.
  destruct (ScanLines _ true) as [adv [tok|]] eqn:E; [|discriminate].
  intros [= <-]. simpl. eapply ScanLines_token; eauto.
Qed.

Lemma Scan_token (all : string) (fin : error) (s s' : bufio_Scanner) :
  Scan all fin s = (true, s') -> IndexByte (sc_token s') delimLabel = None.
Proof.
  unfold Scan. destruct (sc_err s) as [e|].
  - apply Scan_held_token.
  - destruct (ScanLines _ false) as [adv [tok|]] eqn:E.
    + intros [= <-]. simpl. eapply ScanLines_token; eauto.
    + destruct (MaxScanTokenSize <=? _)%nat; [discriminate|].
      apply Scan_held_token.
Qed.

(** The reader built on [ReadSlice] adds the length of the record and one
    for the delimiter. *)
Lemma SliceReader_Next_advance (w : World) (line line' : SliceReader.LineReader)
    (off off' : Z) (msg : string) :
  SliceReader.Next w line off = Returns (msg, None, line', off') ->
  off' = int64_add off (len msg + 1).
Proof.
  unfold SliceReader.Next.
  destruct (SliceReader.closed line =? 1); [discriminate|].
  destruct (SliceReader.reader line) as [b|]; [|discriminate].
  unfold ReadSlice.
  remember (str_drop (rd_off b) _) as rest eqn:Hrest. clear Hrest.
  destruct (IndexByte (str_take defaultBufSize rest) delimLabel) as [i|] eqn:E.
  - apply IndexByte_take in E. cbv beta iota zeta.
    rewrite (Split_line _ _ _ E).
    destruct (take_length_index _ _ _ E) as [H1 H2].
    unfold len at 1. rewrite H2. intros [= <- _ <-].
    unfold len. rewrite H1. f_equal. lia.
  - destruct (defaultBufSize <=? String.length rest)%nat; cbn.
    + discriminate.
    + destruct (is_EOF _); [|discriminate].
      destruct (readOpen _ _) as [e|f].
      * destruct (is_ErrNotExist e); discriminate.
      * destruct (isRemoved _ _); [discriminate|].
        destruct (negb _); discriminate.
Qed.

(** With that reader, an offset that equals the number of bytes taken out
    of the file keeps doing so. *)
Lemma SliceReader_offset_is_consumed (w : World)
    (line line' : SliceReader.LineReader) (b : bufio_Reader)
    (off off' : Z) (msg : string) :
  SliceReader.reader line = Some b ->
  off = Z.of_nat (rd_off b) ->
  in_int64 (off + len msg + 1) ->
  SliceReader.Next w line off = Returns (msg, None, line', off') ->
  exists b',
    SliceReader.reader line' = Some b' /\
    off' = Z.of_nat (rd_off b') /\
    off' = off + len msg + 1.
Proof.
  intros Hb Hoff Hrange Hnext.
  pose proof (SliceReader_Next_advance _ _ _ _ _ _ Hnext) as Hadv.
  unfold int64_add in Hadv. rewrite Z.add_assoc in Hadv.
  rewrite wrap64_small in Hadv by exact Hrange.
  revert Hnext. unfold SliceReader.Next.
  destruct (SliceReader.closed line =? 1); [discriminate|].
  rewrite Hb. unfold ReadSlice.
  remember (str_drop (rd_off b) _) as rest eqn:Hrest. clear Hrest.
  destruct (IndexByte (str_take defaultBufSize rest) delimLabel) as [i|] eqn:E.
  - apply IndexByte_take in E. cbv beta iota zeta.
    rewrite (Split_line _ _ _ E).
    destruct (take_length_index _ _ _ E) as [H1 H2].
    intros [= Hm Hl _]. eexists. rewrite <- Hl. cbn.
    split; [reflexivity|]. split; [|exact Hadv].
    rewrite Hadv, Hoff, <- Hm. unfold len. rewrite H1. simpl rd_off. lia.
  - destruct (defaultBufSize <=? String.length rest)%nat; cbn.
    + discriminate.
    + destruct (is_EOF _); [|discriminate].
      destruct (readOpen _ _) as [e|f].
      * destruct (is_ErrNotExist e); discriminate.
      * destruct (isRemoved _ _); [discriminate|].
        destruct (negb _); discriminate.
Qed.

(** The reader built on [bufio.Scanner] adds the length of the record
    only. *)
Lemma ScanReader_Next_advance (w : World) (line line' : ScanReader.LineReader)
    (off off' : Z) (msg : string) :
  ScanReader.Next w line off = Returns (msg, None, line', off') ->
  off' = int64_add off (len msg).
Proof.
  unfold ScanReader.Next.
  destruct (ScanReader.closed line =? 1); [discriminate|].
  destruct (ScanReader.reader line) as [s|]; [|discriminate].
  destruct (Scan _ _ s) as [[|] s'] eqn:E.
  - apply Scan_token in E. unfold Text. intros [= <- _ <-].
    now rewrite (Split_plain _ _ E).
  - destruct (is_EOF _); [|discriminate].
    destruct (readOpen _ _) as [e|f].
    + destruct (is_ErrNotExist e); discriminate.
    + destruct (isRemoved _ _); [discriminate|].
      destruct (negb _); discriminate.
Qed.

(** C1, on the reader of the root package: from offset 0 on the file
    "a\nb\n", the first [Next] returns the record "a" and has consumed
    two bytes of the file (the record and its delimiter), yet the
    shared offset is 1; after the second record, four bytes are consumed
    and the offset is 2.  The offset counts the records' bytes and leaves
    the delimiters out. *)
Theorem ScanReader_offset_skips_delimiters :
  exists r0 r1 r2,
    ScanReader.NewLineReader two_lines_world "a.log" 0 = inr r0 /\
    ScanReader.Next two_lines_world r0 0 = Returns ("a"%string, None, r1, 1) /\
    scanned r1 = Some 2%nat /\
    ScanReader.Next two_lines_world r1 1 = Returns ("b"%string, None, r2, 2) /\
    scanned r2 = Some 4%nat.
Proof.
  do 3 eexists. split; [run_code|]. split; [run_code|].
  split; [run_code|]. split; [run_code|]. run_code.
Qed.

(** On the same file the reader built on [ReadSlice] keeps the offset
    equal to the number of bytes consumed. *)
Lemma SliceReader_offset_counts_delimiters :
  exists r0 r1 r2,
    SliceReader.NewLineReader two_lines_world "a.log" 0 = inr r0 /\
    SliceReader.Next two_lines_world r0 0 = Returns ("a"%string, None, r1, 2) /\
    SliceReader.reader r1 = Some {| rd_off := 2 |} /\
    SliceReader.Next two_lines_world r1 2 = Returns ("b"%string, None, r2, 4) /\
    SliceReader.reader r2 = Some {| rd_off := 4 |}.
Proof.
  do 3 eexists. split; [run_code|]. split; [run_code|].
  split; [run_code|]. split; [run_code|]. run_code.
Qed.

(** ** The file of [Test_ReaderLine] *)

(** C6 as stated fails: the ten records are delivered, but the offset
    that goes with them is not 155, with either reader. *)
Lemma test_file_offset_is_not_155 :
  ~ (exists r0 r,
       SliceReader.NewLineReader test_world "./test_linereader_file.log" 0
         = inr r0 /\
       drain (SliceReader.Next test_world) 10 r0 0
         = (test_lines, Some (r, 155))) /\
  ~ (exists r0 r,
       ScanReader.NewLineReader test_world "./test_linereader_file.log" 0
         = inr r0 /\
       drain (ScanReader.Next test_world) 10 r0 0
         = (test_lines, Some (r, 155))).
Proof.
  split; intros (r0 & r & H0 & H); vm_compute in H0;
    injection H0 as <-; vm_compute in H; discriminate.
Qed.

(** C6, amended: on the file of the ten lines "test_line_log=1" to
    "test_line_log=10", each ended by a newline, a reader started at
    offset 0 yields exactly those ten records in order, without their
    delimiters, and the call after them yields plain EOF and leaves the
    offset alone.  With the reader built on [ReadSlice] the offset is then
    161, the length of the ten lines with their delimiters. *)
Theorem test_file_ten_records :
  (exists r0 r,
     SliceReader.NewLineReader test_world "./test_linereader_file.log" 0
       = inr r0 /\
     drain (SliceReader.Next test_world) 10 r0 0
       = (test_lines, Some (r, 161)) /\
     len test_file = 161 /\
     SliceReader.Next test_world r 161
       = Returns (EmptyString, Some io_EOF, r, 161)) /\
  (exists r0 r r' off,
     ScanReader.NewLineReader test_world "./test_linereader_file.log" 0
       = inr r0 /\
     drain (ScanReader.Next test_world) 10 r0 0
       = (test_lines, Some (r, off)) /\
     ScanReader.Next test_world r off
       = Returns (EmptyString, Some io_EOF, r', off)).
Proof.
  split.
  - do 2 eexists. split; [run_code|]. split; [run_code|].
    split; [run_code|]. run_code.
  - do 4 eexists. split; [run_code|]. split; [run_code|]. run_code.
Qed.

(** ** Construction *)






(** ** Close *)

(** C8 as stated fails: the first [Close] of a fresh reader returns no
    error, the second returns the error of a handle that is closed
    already. *)
Lemma Close_twice_returns_differ :
  (exists r,
     SliceReader.NewLineReader test_world "./test_linereader_file.log" 0
       = inr r /\
     fst (SliceReader.Close r) = None /\
     fst (SliceReader.Close (snd (SliceReader.Close r))) = Some os_ErrClosed) /\
  (exists r,
     ScanReader.NewLineReader test_world "./test_linereader_file.log" 0
       = inr r /\
     fst (ScanReader.Close r) = None /\
     fst (ScanReader.Close (snd (ScanReader.Close r))) = Some os_ErrClosed).
Proof.
  split; eexists; (split; [run_code|]); (split; [run_code|]); run_code.
Qed.

(** C8, amended: [Close] is idempotent on the state of the reader (a
    second [Close] leaves the reader as the first left it: flag set,
    buffered reader gone, handle closed), its return value is not (any
    [Close] after the first returns the handle's already-closed error),
    and every [Next] on a reader that was closed returns [ErrorClosed] and
    changes neither the reader nor the offset.  Both readers. *)
Theorem Close_then_Next (w : World) (off : Z) :
  (forall line : SliceReader.LineReader,
     let c := snd (SliceReader.Close line) in
     SliceReader.closed c = 1 /\
     SliceReader.reader c = None /\
     fd_closed (SliceReader.curFile c) = true /\
     SliceReader.Close c = (Some os_ErrClosed, c) /\
     SliceReader.Next w c off
       = Returns (EmptyString, Some ErrorClosed, c, off)) /\
  (forall line : ScanReader.LineReader,
     let c := snd (ScanReader.Close line) in
     ScanReader.closed c = 1 /\
     ScanReader.reader c = None /\
     fd_closed (ScanReader.curFile c) = true /\
     ScanReader.Close c = (Some os_ErrClosed, c) /\
     ScanReader.Next w c off
       = Returns (EmptyString, Some ErrorClosed, c, off)).
Proof.
  split; intros [cl name [obj fname flag pos [|]] rd]; cbv; auto.
Qed.

(** ** End of file *)

(** C3 as stated fails: the held file has been unlinked (link count 0)
    and the path now names a file that may not be opened.  Both readers
    hand the permission error through; the claim's order of tests gives
    ErrorRemoved. *)
Lemma EOF_reopen_denied :
  let before := a_log_world EmptyString (inr 1%nat) 1 in
  let now := a_log_world EmptyString (inl EACCES) 0 in
  (exists r r',
     SliceReader.NewLineReader before "a.log" 0 = inr r /\
     SliceReader.Next now r 0
       = Returns (EmptyString, Some (PathError EACCES), r', 0) /\
     claimed_EOF_outcome now (SliceReader.originName r) (SliceReader.curFile r)
       = ErrorRemoved) /\
  (exists r r',
     ScanReader.NewLineReader before "a.log" 0 = inr r /\
     ScanReader.Next now r 0
       = Returns (EmptyString, Some (PathError EACCES), r', 0) /\
     claimed_EOF_outcome now (ScanReader.originName r) (ScanReader.curFile r)
       = ErrorRemoved).
Proof.
  split; do 2 eexists; (split; [run_code|]); (split; [run_code|]); run_code.
Qed.

(** The outcome of the block that follows [errors.Is(err, io.EOF)], in
    terms of what the system calls report. *)
Lemma EOF_block (w : World) (origin : string) (held : File) :
  exists err,
    match readOpen w origin with
    | inl err' =>
        if is_ErrNotExist err' then ErrorRemoved else err'
    | inr f =>
        if isRemoved w held then ErrorRemoved
        else if negb (isSameFile w held f) then ErrorRename
        else io_EOF
    end = err /\
    match readOpen w origin with
    | inl (PathError ENOENT) => err = ErrorRemoved
    | inl other => err = other
    | inr f =>
        match File_Stat w held with
        | inl _ => err = ErrorRemoved
        | inr st =>
            if Nlink (Sys st) =? 0 then err = ErrorRemoved
            else match File_Stat w f with
                 | inl _ => err = ErrorRename
                 | inr st' =>
                     if (Dev (Sys st) =? Dev (Sys st'))
                        && (Ino (Sys st) =? Ino (Sys st'))
                     then err = io_EOF
                     else err = ErrorRename
                 end
        end
    end.
Proof.
  eexists. split; [reflexivity|].
  destruct (readOpen w origin) as [e|f].
  - destruct e as [| | | | | | | | | | | |[]]; reflexivity.
  - unfold isRemoved, isSameFile.
    destruct (File_Stat w held) as [e|st]; [reflexivity|].
    destruct (Nlink (Sys st) =? 0); [reflexivity|].
    destruct (File_Stat w f) as [e'|st']; simpl; [reflexivity|].
    destruct ((Dev (Sys st) =? Dev (Sys st'))
              && (Ino (Sys st) =? Ino (Sys st'))); reflexivity.
Qed.

(** C3, amended: when the read of a reader that is not closed hits end of
    file, [Next] returns no record, leaves the offset alone, and its error
    is decided in this order: re-opening the origin path fails with
    not-exist, ErrorRemoved; re-opening fails otherwise, that error
    unchanged; the status of the held handle cannot be read or shows link
    count zero, ErrorRemoved; the status of the re-opened handle cannot be
    read or shows another device or inode, ErrorRename; otherwise plain
    EOF.  Both readers. *)
Theorem Next_at_EOF (w : World) (off : Z) :
  (forall (line : SliceReader.LineReader) (b b' : bufio_Reader) (msg : string),
     SliceReader.closed line <> 1 ->
     SliceReader.reader line = Some b ->
     ReadSlice (File_bytes w (SliceReader.curFile line))
               (File_end w (SliceReader.curFile line)) b
       = ((msg, Some io_EOF), b') ->
     exists err,
       SliceReader.Next w line off
         = Returns (EmptyString, Some err, SliceReader.set_reader line b', off)
       /\
       match readOpen w (SliceReader.originName line) with
       | inl (PathError ENOENT) => err = ErrorRemoved
       | inl other => err = other
       | inr f =>
           match File_Stat w (SliceReader.curFile line) with
           | inl _ => err = ErrorRemoved
           | inr st =>
               if Nlink (Sys st) =? 0 then err = ErrorRemoved
               else match File_Stat w f with
                    | inl _ => err = ErrorRename
                    | inr st' =>
                        if (Dev (Sys st) =? Dev (Sys st'))
                           && (Ino (Sys st) =? Ino (Sys st'))
                        then err = io_EOF
                        else err = ErrorRename
                    end
           end
       end) /\
  (forall (line : ScanReader.LineReader) (s s' : bufio_Scanner),
     ScanReader.closed line <> 1 ->
     ScanReader.reader line = Some s ->
     Scan (File_bytes w (ScanReader.curFile line))
          (File_end w (ScanReader.curFile line)) s = (false, s') ->
     Err s' = None ->
     exists err,
       ScanReader.Next w line off
         = Returns (EmptyString, Some err, ScanReader.set_reader line s', off)
       /\
       match readOpen w (ScanReader.originName line) with
       | inl (PathError ENOENT) => err = ErrorRemoved
       | inl other => err = other
       | inr f =>
           match File_Stat w (ScanReader.curFile line) with
           | inl _ => err = ErrorRemoved
           | inr st =>
               if Nlink (Sys st) =? 0 then err = ErrorRemoved
               else match File_Stat w f with
                    | inl _ => err = ErrorRename
                    | inr st' =>
                        if (Dev (Sys st) =? Dev (Sys st'))
                           && (Ino (Sys st) =? Ino (Sys st'))
                        then err = io_EOF
                        else err = ErrorRename
                    end
           end
       end).
Proof.
  split.
  - intros line b b' msg Hc Hr Hread.
    destruct (EOF_block w (SliceReader.originName line)
                (SliceReader.curFile line)) as (err & Hcode & Hspec).
    exists err. split; [|exact Hspec].
    unfold SliceReader.Next.
    destruct (SliceReader.closed line =? 1) eqn:E; [lia|].
    rewrite Hr, Hread. cbn [is_EOF]. cbv beta iota zeta.
    change (SliceReader.originName (SliceReader.set_reader line b'))
      with (SliceReader.originName line).
    change (SliceReader.curFile (SliceReader.set_reader line b'))
      with (SliceReader.curFile line).
    rewrite <- Hcode.
    destruct (readOpen w (SliceReader.originName line)) as [e|f].
    + destruct (is_ErrNotExist e); reflexivity.
    + destruct (isRemoved _ _); [reflexivity|].
      destruct (negb _); reflexivity.
  - intros line s s' Hc Hr Hscan Herr.
    destruct (EOF_block w (ScanReader.originName line)
                (ScanReader.curFile line)) as (err & Hcode & Hspec).
    exists err. split; [|exact Hspec].
    unfold ScanReader.Next.
    destruct (ScanReader.closed line =? 1) eqn:E; [lia|].
    rewrite Hr, Hscan, Herr. cbn [is_EOF]. cbv beta iota zeta.
    change (ScanReader.originName (ScanReader.set_reader line s'))
      with (ScanReader.originName line).
    change (ScanReader.curFile (ScanReader.set_reader line s'))
      with (ScanReader.curFile line).
    rewrite <- Hcode.
    destruct (readOpen w (ScanReader.originName line)) as [e|f].
    + destruct (is_ErrNotExist e); reflexivity.
    + destruct (isRemoved _ _); [reflexivity|].
      destruct (negb _); reflexivity.
Qed.

Lemma Next_at_EOF_witness :
  let w := a_log_world EmptyString (inr 2%nat) 1 in
  let line :=
    {| SliceReader.closed := 0; SliceReader.originName := "a.log";
       SliceReader.curFile :=
         {| fd_obj := 1; fd_name := "a.log"; fd_flag := O_RDONLY;
            fd_pos := 0; fd_closed := false |};
       SliceReader.reader := Some {| rd_off := 0 |} |} in
  SliceReader.closed line <> 1 /\
  ReadSlice (File_bytes w (SliceReader.curFile line))
            (File_end w (SliceReader.curFile line)) {| rd_off := 0 |}
    = ((EmptyString, Some io_EOF), {| rd_off := 0 |}) /\
  SliceReader.Next w line 0 = Returns (EmptyString, Some ErrorRename, line, 0).
Proof.
  intros w line.
  assert (Hc : SliceReader.closed line <> 1) by discriminate.
  split; [exact Hc|]. split; [reflexivity|].
  destruct (proj1 (Next_at_EOF w 0) line {| rd_off := 0 |} {| rd_off := 0 |}
              EmptyString Hc eq_refl eq_refl) as (err & H & Hs).
  vm_compute in Hs. rewrite Hs in H. exact H.
Defined.

(** ** ErrorEmpty *)

Lemma File_end_not_ErrorEmpty (w : World) (f : File) :
  File_end w f <> ErrorEmpty.
Proof.
  unfold File_end. destruct (fd_closed f); [discriminate|].
  destruct (w_ioerr w (fd_obj f)); discriminate.
Qed.

Lemma readOpen_error (w : World) (name : string) (err : error) :
  readOpen w name = inl err -> exists e, err = PathError e.
Proof.
  unfold readOpen, os_OpenFile. destruct (w_open w name) as [e|k].
  - intros [= <-]. now exists e.
  - discriminate.
Qed.

Lemma File_Close_error (f : File) :
  snd (File_Close f) = None \/ snd (File_Close f) = Some os_ErrClosed.
Proof. unfold File_Close. destruct (fd_closed f); simpl; auto. Qed.

(** The error of the block that follows [errors.Is(err, io.EOF)]. *)
Lemma EOF_block_not_ErrorEmpty (w : World) (origin : string) (held : File) :
  match readOpen w origin with
  | inl err' => if is_ErrNotExist err' then ErrorRemoved else err'
  | inr f =>
      if isRemoved w held then ErrorRemoved
      else if negb (isSameFile w held f) then ErrorRename
      else io_EOF
  end <> ErrorEmpty.
Proof.
  destruct (readOpen w origin) as [e|f] eqn:E.
  - destruct (readOpen_error _ _ _ E) as [n ->].
    destruct (is_ErrNotExist _); discriminate.
  - destruct (isRemoved _ _); [discriminate|].
    destruct (negb _); discriminate.
Qed.

Lemma SliceReader_Next_not_ErrorEmpty (w : World)
    (line line' : SliceReader.LineReader) (off off' : Z) (msg : string) :
  SliceReader.Next w line off <> Returns (msg, Some ErrorEmpty, line', off').
Proof.
  unfold SliceReader.Next.
  destruct (SliceReader.closed line =? 1); [discriminate|].
  destruct (SliceReader.reader line) as [b|]; [|discriminate].
  unfold ReadSlice.
  destruct (IndexByte _ delimLabel); [discriminate|].
  destruct (defaultBufSize <=? _)%nat; [discriminate|].
  cbv beta iota zeta.
  pose proof (File_end_not_ErrorEmpty w (SliceReader.curFile line)) as Hfin.
  destruct (is_EOF (File_end w (SliceReader.curFile line))) eqn:E.
  - pose proof (EOF_block_not_ErrorEmpty w (SliceReader.originName line)
                  (SliceReader.curFile line)) as Hb.
    change (SliceReader.originName (SliceReader.set_reader line _))
      with (SliceReader.originName line).
    change (SliceReader.curFile (SliceReader.set_reader line _))
      with (SliceReader.curFile line).
    destruct (File_end w (SliceReader.curFile line)); try discriminate E.
    destruct (readOpen w (SliceReader.originName line)) as [e|f].
    + destruct (is_ErrNotExist e); [discriminate|].
      intros [= _ He _ _]. now apply Hb.
    + destruct (isRemoved _ _); [discriminate|].
      destruct (negb _); discriminate.
  - intros [= _ He _ _]. now apply Hfin.
Qed.

Lemma Scan_held_kept (all : string) (s : bufio_Scanner) (e : error) :
  e <> ErrorEmpty -> scan_kept (snd (Scan_held all s e)).
Proof.
  intros He. unfold Scan_held, scan_kept.
  destruct (ScanLines _ true) as [adv [tok|]]; simpl; congruence.
Qed.

Lemma Scan_kept (all : string) (fin : error) (s : bufio_Scanner) :
  fin <> ErrorEmpty -> scan_kept s -> scan_kept (snd (Scan all fin s)).
Proof.
  intros Hfin Hs. unfold Scan.
  destruct (sc_err s) as [e|] eqn:E.
  - apply Scan_held_kept. unfold scan_kept in Hs. congruence.
  - destruct (ScanLines _ false) as [adv [tok|]]; [simpl; discriminate|].
    destruct (MaxScanTokenSize <=? _)%nat; [simpl; discriminate|].
    now apply Scan_held_kept.
Qed.

Lemma reachable_kept (r : ScanReader.LineReader) :
  reachable r ->
  forall s, ScanReader.reader r = Some s -> scan_kept s.
Proof.
  induction 1 as [w name off r Hnew | w r r' off off' msg err _ IH Hnext
                 | r _ IH].
  - unfold ScanReader.NewLineReader in Hnew.
    destruct (readOpen w name); [discriminate|].
    injection Hnew as <-. simpl. intros s [= <-]. discriminate.
  - unfold ScanReader.Next in Hnext.
    destruct (ScanReader.closed r =? 1).
    { injection Hnext as _ _ <- _. exact IH. }
    destruct (ScanReader.reader r) as [s0|] eqn:Er; [|discriminate].
    pose proof (Scan_kept (File_bytes w (ScanReader.curFile r))
                  (File_end w (ScanReader.curFile r)) s0
                  (File_end_not_ErrorEmpty _ _) (IH s0 eq_refl)) as Hk.
    destruct (Scan _ _ s0) as [ok s1]. simpl in Hk.
    assert (Hr' : r' = ScanReader.set_reader r s1).
    { destruct ok; [now injection Hnext as _ _ <- _|].
      destruct (is_EOF _); [|now injection Hnext as _ _ <- _].
      destruct (readOpen _ _) as [e|f].
      - destruct (is_ErrNotExist e); now injection Hnext as _ _ <- _.
      - destruct (isRemoved _ _); [now injection Hnext as _ _ <- _|].
        destruct (negb _); now injection Hnext as _ _ <- _. }
    subst r'. simpl. intros s [= <-]. exact Hk.
  - unfold ScanReader.Close. destruct (File_Close _). simpl. discriminate.
Qed.

Lemma ScanReader_Next_not_ErrorEmpty (w : World)
    (line line' : ScanReader.LineReader) (off off' : Z) (msg : string) :
  reachable line ->
  ScanReader.Next w line off <> Returns (msg, Some ErrorEmpty, line', off').
Proof.
  intros Hreach. pose proof (reachable_kept _ Hreach) as Hk.
  unfold ScanReader.Next.
  destruct (ScanReader.closed line =? 1); [discriminate|].
  destruct (ScanReader.reader line) as [s|]; [|discriminate].
  pose proof (Scan_kept (File_bytes w (ScanReader.curFile line))
                (File_end w (ScanReader.curFile line)) s
                (File_end_not_ErrorEmpty _ _) (Hk s eq_refl)) as Hs.
  destruct (Scan _ _ s) as [[|] s']; [discriminate|]. simpl in Hs.
  assert (He : match Err s' with Some e => e | None => io_EOF end
               <> ErrorEmpty).
  { unfold Err, scan_kept in *.
    destruct (sc_err s') as [[]|]; congruence. }
  destruct (match Err s' with Some e => e | None => io_EOF end) eqn:Ee;
    cbn [is_EOF]; try discriminate; try congruence.
  - pose proof (EOF_block_not_ErrorEmpty w (ScanReader.originName line)
                  (ScanReader.curFile line)) as Hb.
    change (ScanReader.originName (ScanReader.set_reader line s'))
      with (ScanReader.originName line).
    change (ScanReader.curFile (ScanReader.set_reader line s'))
      with (ScanReader.curFile line).
    destruct (readOpen w (ScanReader.originName line)) as [e|f].
    + destruct (is_ErrNotExist e); [discriminate|].
      intros [= _ He' _ _]. now apply Hb.
    + destruct (isRemoved _ _); [discriminate|].
      destruct (negb _); discriminate.
Qed.

Lemma NewLineReader_error (w : World) (name : string) (off : Z) (err : error) :
  (SliceReader.NewLineReader w name off = inl err ->
   exists e, err = PathError e) /\
  (ScanReader.NewLineReader w name off = inl err ->
   exists e, err = PathError e).
Proof.
  unfold SliceReader.NewLineReader, ScanReader.NewLineReader.
  destruct (readOpen w name) as [e|f] eqn:E; split; try discriminate;
    intros [= <-]; eapply readOpen_error; eauto.
Qed.

Lemma Close_error :
  (forall line, fst (SliceReader.Close line) <> Some ErrorEmpty) /\
  (forall line, fst (ScanReader.Close line) <> Some ErrorEmpty).
Proof.
  split; intros line; unfold SliceReader.Close, ScanReader.Close.
  - destruct (File_Close_error (SliceReader.curFile line)) as [H|H];
      destruct (File_Close _); simpl in *; congruence.
  - destruct (File_Close_error (ScanReader.curFile line)) as [H|H];
      destruct (File_Close _); simpl in *; congruence.
Qed.

(** *** The harvester *)

Section HarvesterErrors.

Import Harvester.

Lemma sound_set_meta beater m :
  never_logged ErrorEmpty beater ->
  never_logged ErrorEmpty (set_meta beater m).
Proof. intros H. exact H. Qed.

Lemma sound_set_waitDealFiles beater l :
  never_logged ErrorEmpty beater ->
  never_logged ErrorEmpty (set_waitDealFiles beater l).
Proof. intros H. exact H. Qed.

Lemma sound_set_sinks beater l :
  never_logged ErrorEmpty beater ->
  never_logged ErrorEmpty (set_sinks beater l).
Proof. intros H. exact H. Qed.

Lemma sound_set_curReader beater r :
  never_logged ErrorEmpty beater ->
  reachable r ->
  never_logged ErrorEmpty (set_curReader beater (Some r)).
Proof.
  intros [_ H2] Hr. split; [|exact H2].
  simpl. intros r' [= <-]. exact Hr.
Qed.

Lemma sound_OnError beater err :
  never_logged ErrorEmpty beater ->
  err <> ErrorEmpty ->
  never_logged ErrorEmpty (OnError beater err).
Proof.
  intros [H1 H2] He. split; [exact H1|].
  simpl. rewrite in_app_iff. intros [H|[H|[]]]; [auto|congruence].
Qed.

Lemma initReaderFromMetadata_sound w beater :
  never_logged ErrorEmpty beater ->
  fst (initReaderFromMetadata w beater) <> Some ErrorEmpty /\
  never_logged ErrorEmpty (snd (initReaderFromMetadata w beater)).
Proof.
  intros H. unfold initReaderFromMetadata.
  destruct (negb _); [|split; [discriminate|exact H]].
  destruct (ScanReader.NewLineReader _ _ _) as [err|r] eqn:E; simpl.
  - split; [|exact H].
    destruct (proj2 (NewLineReader_error _ _ _ _) E) as [e ->].
    discriminate.
  - split; [discriminate|].
    apply sound_set_curReader; [exact H|]. eapply reach_new; eauto.
Qed.

Lemma Init_reader_sound w d beater :
  never_logged ErrorEmpty beater ->
  fst (fst (Init_reader w d beater)) <> Some ErrorEmpty /\
  never_logged ErrorEmpty (snd (fst (Init_reader w d beater))).
Proof.
  intros H. unfold Init_reader.
  destruct (initReaderFromMetadata_sound w beater H) as [H1 H2].
  destruct (initReaderFromMetadata w beater) as [[err|] b1];
    cbn [fst snd] in *.
  - destruct (negb _); cbn [fst snd]; [auto|].
    destruct (initReaderFromMetadata_sound w (set_meta b1 Metadata_zero) H2)
      as [H3 H4].
    destruct (initReaderFromMetadata w (set_meta b1 Metadata_zero))
      as [e2 b2].
    cbn [fst snd] in *. auto.
  - auto.
Qed.

Lemma Init_sound lib w d beater :
  never_logged ErrorEmpty beater ->
  fst (fst (Init lib w d beater)) <> Some ErrorEmpty /\
  never_logged ErrorEmpty (snd (fst (Init lib w d beater))).
Proof.
  intros H. unfold Init. destruct (md_read d) as [e|data].
  - destruct (negb _); simpl; [split; [discriminate|exact H]|].
    destruct (md_create d); simpl; [split; [discriminate|exact H]|].
    now apply Init_reader_sound.
  - destruct (negb _); simpl; [split; [discriminate|exact H]|].
    unfold json_Unmarshal.
    destruct (json_Valid lib data); simpl; split;
      solve [discriminate | exact H].
Qed.

Lemma Close_sound beater err beater' :
  never_logged ErrorEmpty beater ->
  Close beater = Returns (err, beater') ->
  err <> Some ErrorEmpty /\ never_logged ErrorEmpty beater'.
Proof.
  intros H. unfold Close.
  destruct (curReader beater) as [r|] eqn:E; [|discriminate].
  pose proof (proj2 Close_error r) as Hc.
  pose proof (reach_Close r (proj1 H r E)) as Hr.
  destruct (ScanReader.Close r) as [e r']. simpl in *.
  intros [= <- <-]. split; [exact Hc|].
  now apply sound_set_curReader.
Qed.

Lemma initReaderFromWait_sound w published beater err beater' :
  never_logged ErrorEmpty beater ->
  initReaderFromWait w published beater = Returns (err, beater') ->
  err <> Some ErrorEmpty /\ never_logged ErrorEmpty beater'.
Proof.
  intros H. unfold initReaderFromWait.
  destruct (if (List.length (waitDealFiles beater) =? 0)%nat
            then published else Some (waitDealFiles beater)) as [files|];
    [|discriminate].
  destruct (rev files) as [|waitDeal rest]; [discriminate|].
  cbv beta iota zeta.
  destruct (ScanReader.NewLineReader _ _ _) as [e|r] eqn:E.
  - intros [= <- <-]. split; [|exact H].
    destruct (proj2 (NewLineReader_error _ _ _ _) E) as [n ->].
    discriminate.
  - intros [= <- <-]. split; [discriminate|].
    apply sound_set_curReader; [exact H|]. eapply reach_new; eauto.
Qed.

Lemma switchNextFile_sound w published beater err beater' :
  never_logged ErrorEmpty beater ->
  switchNextFile w published beater = Returns (err, beater') ->
  err <> Some ErrorEmpty /\ never_logged ErrorEmpty beater'.
Proof.
  intros H. unfold switchNextFile.
  apply initReaderFromWait_sound.
  assert (H1 : never_logged ErrorEmpty match curReader beater with
                     | Some old =>
                         set_curReader beater
                           (Some (snd (ScanReader.Close old)))
                     | None => beater
                     end).
  { destruct (curReader beater) as [old|] eqn:E; [|exact H].
    apply sound_set_curReader; [exact H|].
    apply reach_Close. now apply (proj1 H). }
  destruct (match_pos _ _); [apply sound_set_waitDealFiles|]; exact H1.
Qed.

Lemma loadCurFiles_error lib w beater err :
  loadCurFiles lib w beater = inl err -> err <> ErrorEmpty.
Proof.
  unfold loadCurFiles. destruct (w_readdir w _); [intros [= <-]; discriminate|].
  destruct (regexp_Compile lib _); [discriminate|].
  intros [= <-]; discriminate.
Qed.

Lemma setWaitDealFiles_sound lib scans beater err beater' :
  never_logged ErrorEmpty beater ->
  setWaitDealFiles lib scans beater = Some (err, beater') ->
  err <> Some ErrorEmpty /\ never_logged ErrorEmpty beater'.
Proof.
  intros H. induction scans as [|w later IH]; simpl; [discriminate|].
  destruct (loadCurFiles lib w beater) as [e|result] eqn:E.
  - intros [= <- <-]. split; [|exact H].
    pose proof (loadCurFiles_error _ _ _ _ E). congruence.
  - destruct (List.length _ =? 0)%nat; [exact IH|].
    intros [= <- <-]. split; [discriminate|exact H].
Qed.

Lemma innerRun_sound fuel lib w published :
  forall beater d beater' d',
    never_logged ErrorEmpty beater ->
    innerRun fuel lib w published beater d = Some (Returns (beater', d')) ->
    never_logged ErrorEmpty beater'.
Proof.
  induction fuel as [|fuel IH]; intros beater d beater' d' H; simpl;
    [discriminate|].
  destruct (curReader beater) as [r|] eqn:Er; [|discriminate].
  pose proof (proj1 H r Er) as Hr.
  destruct (ScanReader.Next w r (CurOffset (meta beater)))
    as [[[[msg err] r1] off]| |] eqn:En; try discriminate.
  assert (Hr1 : reachable r1) by (eapply reach_Next; eauto).
  assert (Hne : err <> Some ErrorEmpty).
  { intros ->. exact (ScanReader_Next_not_ErrorEmpty _ _ _ _ _ _ Hr En). }
  set (b1 := set_meta (set_curReader beater (Some r1))
                      (set_CurOffset (meta beater) off)).
  assert (H1 : never_logged ErrorEmpty b1).
  { apply sound_set_meta. now apply sound_set_curReader. }
  assert (Hswitch :
    match switchNextFile w published b1 with
    | Returns (_, b2) => innerRun fuel lib w published b2 d
    | Panics => Some Panics
    | Blocks => Some Blocks
    end = Some (Returns (beater', d')) -> never_logged ErrorEmpty beater').
  { destruct (switchNextFile w published b1) as [[e2 b2]| |] eqn:Es;
      try discriminate.
    destruct (switchNextFile_sound _ _ _ _ _ H1 Es) as [_ H2].
    now apply IH. }
  destruct err as [e|].
  - destruct e; try exact Hswitch;
      try (intros [= <- _]; apply sound_OnError; [exact H1|discriminate]).
    + congruence.
    + intros [= <- _]. exact H1.
  - apply IH. apply sound_set_sinks. exact H1.
Qed.

End HarvesterErrors.

Lemma MaxScanTokenSize_pos : exists n, MaxScanTokenSize = S n.
Proof.
  exists (Z.to_nat 65535). unfold MaxScanTokenSize.
  change (64 * 1024) with (Z.succ 65535).
  rewrite Z2Nat.inj_succ by lia. reflexivity.
Qed.

(** An empty line is a record: the empty string, with no error. *)
Lemma empty_line_is_a_record (w : World) (off : Z) :
  (forall (line : SliceReader.LineReader) (b : bufio_Reader) (rest : string),
     SliceReader.closed line <> 1 ->
     SliceReader.reader line = Some b ->
     str_drop (rd_off b) (File_bytes w (SliceReader.curFile line))
       = String delimLabel rest ->
     exists line',
       SliceReader.Next w line off
         = Returns (EmptyString, None, line', int64_add off 1)) /\
  (forall (line : ScanReader.LineReader) (s : bufio_Scanner) (rest : string),
     ScanReader.closed line <> 1 ->
     ScanReader.reader line = Some s ->
     sc_err s = None ->
     str_drop (sc_start s) (File_bytes w (ScanReader.curFile line))
       = String delimLabel rest ->
     exists line',
       ScanReader.Next w line off
         = Returns (EmptyString, None, line', int64_add off 0)).
Proof.
  split.
  - intros line b rest Hc Hr Hrest. unfold SliceReader.Next.
    destruct (SliceReader.closed line =? 1) eqn:E; [lia|].
    rewrite Hr. unfold ReadSlice. rewrite Hrest. eexists. reflexivity.
  - intros line s rest Hc Hr He Hrest. unfold ScanReader.Next.
    destruct (ScanReader.closed line =? 1) eqn:E; [lia|].
    rewrite Hr. unfold Scan. rewrite He, Hrest.
    destruct MaxScanTokenSize_pos as [n ->]. eexists. reflexivity.
Qed.

(** C9: no operation returns [ErrorEmpty].  For the two line readers:
    not [NewLineReader], not [Close], not [Next] (for the reader built on
    [bufio.Scanner], on every reader state that construction, [Next] and
    [Close] can produce), and an empty line comes out as the empty record
    with no error.  For the harvester, started from a state whose reader
    is such a state and whose logger was never given [ErrorEmpty]: not
    [Init], [NewHarvester], [Close], [initReaderFromMetadata],
    [initReaderFromWait], [switchNextFile], [loadCurFiles] or
    [setWaitDealFiles], and the reader loop hands none to [OnError]. *)
Theorem ErrorEmpty_never_returned :
  (forall w name off,
     SliceReader.NewLineReader w name off <> inl ErrorEmpty /\
     ScanReader.NewLineReader w name off <> inl ErrorEmpty) /\
  (forall line, fst (SliceReader.Close line) <> Some ErrorEmpty) /\
  (forall line, fst (ScanReader.Close line) <> Some ErrorEmpty) /\
  (forall w line off msg line' off',
     SliceReader.Next w line off
       <> Returns (msg, Some ErrorEmpty, line', off')) /\
  (forall w line off msg line' off',
     reachable line ->
     ScanReader.Next w line off
       <> Returns (msg, Some ErrorEmpty, line', off')) /\
  (forall w off (line : SliceReader.LineReader) b rest,
     SliceReader.closed line <> 1 ->
     SliceReader.reader line = Some b ->
     str_drop (rd_off b) (File_bytes w (SliceReader.curFile line))
       = String delimLabel rest ->
     exists line',
       SliceReader.Next w line off
         = Returns (EmptyString, None, line', int64_add off 1)) /\
  (forall w off (line : ScanReader.LineReader) s rest,
     ScanReader.closed line <> 1 ->
     ScanReader.reader line = Some s ->
     sc_err s = None ->
     str_drop (sc_start s) (File_bytes w (ScanReader.curFile line))
       = String delimLabel rest ->
     exists line',
       ScanReader.Next w line off
         = Returns (EmptyString, None, line', int64_add off 0)) /\
  (forall lib w d c,
     fst (Harvester.NewHarvester lib w d c) <> inl ErrorEmpty) /\
  (forall lib w beater err,
     Harvester.loadCurFiles lib w beater = inl err -> err <> ErrorEmpty) /\
  (forall beater,
     never_logged ErrorEmpty beater ->
     (forall lib w d,
        fst (fst (Harvester.Init lib w d beater)) <> Some ErrorEmpty /\
        never_logged ErrorEmpty (snd (fst (Harvester.Init lib w d beater)))) /\
     (forall w,
        fst (Harvester.initReaderFromMetadata w beater) <> Some ErrorEmpty /\
        never_logged ErrorEmpty
          (snd (Harvester.initReaderFromMetadata w beater))) /\
     (forall err beater',
        Harvester.Close beater = Returns (err, beater') ->
        err <> Some ErrorEmpty /\ never_logged ErrorEmpty beater') /\
     (forall w published err beater',
        Harvester.initReaderFromWait w published beater
          = Returns (err, beater') ->
        err <> Some ErrorEmpty /\ never_logged ErrorEmpty beater') /\
     (forall w published err beater',
        Harvester.switchNextFile w published beater
          = Returns (err, beater') ->
        err <> Some ErrorEmpty /\ never_logged ErrorEmpty beater') /\
     (forall lib scans err beater',
        Harvester.setWaitDealFiles lib scans beater = Some (err, beater') ->
        err <> Some ErrorEmpty /\ never_logged ErrorEmpty beater') /\
     (forall fuel lib w published d beater' d',
        Harvester.innerRun fuel lib w published beater d
          = Some (Returns (beater', d')) ->
        never_logged ErrorEmpty beater')).
Proof.
  split.
  { intros w name off. split; intros H.
    - destruct (proj1 (NewLineReader_error _ _ _ _) H); discriminate.
    - destruct (proj2 (NewLineReader_error _ _ _ _) H); discriminate. }
  split; [exact (proj1 Close_error)|].
  split; [exact (proj2 Close_error)|].
  split; [intros; apply SliceReader_Next_not_ErrorEmpty|].
  split; [intros; now apply ScanReader_Next_not_ErrorEmpty|].
  split; [intros w off; exact (proj1 (empty_line_is_a_record w off))|].
  split; [intros w off; exact (proj2 (empty_line_is_a_record w off))|].
  split.
  { intros lib w d c. unfold Harvester.NewHarvester.
    assert (H0 : never_logged ErrorEmpty (Harvester.new_struct c)).
    { split; simpl; [discriminate|tauto]. }
    destruct (Init_sound lib w d _ H0) as [H1 _].
    destruct (Harvester.Init lib w d (Harvester.new_struct c))
      as [[[err|] b] d']; simpl in *; congruence. }
  split; [intros lib w beater err; apply loadCurFiles_error|].
  intros beater H.
  split; [intros; now apply Init_sound|].
  split; [intros; now apply initReaderFromMetadata_sound|].
  split; [intros; eapply Close_sound; eauto|].
  split; [intros; eapply initReaderFromWait_sound; eauto|].
  split; [intros; eapply switchNextFile_sound; eauto|].
  split; [intros; eapply setWaitDealFiles_sound; eauto|].
  intros; eapply innerRun_sound; eauto.
Qed.

(** An empty line in front of a reader of the root package. *)
Lemma ErrorEmpty_never_returned_witness :
  let w := a_log_world nl (inr 1%nat) 1 in
  exists line,
    ScanReader.NewLineReader w "a.log" 0 = inr line /\
    reachable line /\
    (forall msg line' off',
       ScanReader.Next w line 0 <> Returns (msg, Some ErrorEmpty, line', off'))
    /\
    exists line',
      ScanReader.Next w line 0 = Returns (EmptyString, None, line', 0).
Proof.
  intros w.
  destruct ErrorEmpty_never_returned
    as (_ & _ & _ & _ & Hnext & _ & Hempty & _).
  eexists. split; [reflexivity|].
  match goal with |- reachable ?l /\ _ =>
    assert (Hr : reachable l) by (apply (reach_new w "a.log" 0); reflexivity)
  end.
  split; [exact Hr|]. split.
  - intros msg line' off'. now apply Hnext.
  - eapply (Hempty w 0 _ ScanReader.NewScanner EmptyString);
      [discriminate | reflexivity | reflexivity | reflexivity].
Defined.

(** ** The harvester without a reader *)

(** C10: as long as nothing was stored in the current-reader cell, the
    type assertion of [Close] and of the reader loop panics instead of
    returning an error.  That is the state [NewHarvester] leaves behind when
    the checkpoint is empty: the struct literal has an empty cell,
    [initReaderFromMetadata] on an empty [CurFile] stores nothing and
    returns no error, and so does [Init] when the checkpoint file is
    missing (it is created) or holds no valid document. *)
Theorem Close_and_innerRun_panic_without_reader
    (lib : Lib) (w : World) (published : option (list FileInfo))
    (d : MetaDisk) (fuel : nat) :
  (forall beater,
     Harvester.Close (Harvester.set_curReader beater None) = Panics /\
     Harvester.innerRun (S fuel) lib w published
       (Harvester.set_curReader beater None) d = Some Panics) /\
  (forall c,
     let beater := Harvester.new_struct c in
     Harvester.curReader beater = None /\
     Harvester.initReaderFromMetadata w beater = (None, beater) /\
     Harvester.Init lib w
       {| md_read := inl ENOENT; md_create := None; md_write := md_write d |}
       beater
       = (None, beater,
          {| md_read := inr EmptyString; md_create := None;
             md_write := md_write d |}) /\
     (forall data,
        json_Valid lib data = false ->
        Harvester.NewHarvester lib w (put_doc d data) c
          = (inr beater, put_doc d data)) /\
     Harvester.Close beater = Panics /\
     Harvester.innerRun (S fuel) lib w published beater d = Some Panics).
Proof.
  split.
  - intros beater. split; reflexivity.
  - intros c beater. repeat split.
    intros data Hv. unfold Harvester.NewHarvester, Harvester.Init.
    simpl. rewrite Hv. reflexivity.
Qed.

Lemma Close_and_innerRun_panic_without_reader_witness :
  let lib :=
    {| json_Marshal := fun _ => EmptyString;
       json_Valid := fun data => negb (String.eqb data EmptyString);
       json_decode := fun _ m => inr m; filepath_Dir := fun p => p;
       filepath_Base := fun p => p; regexp_Compile := fun _ => None;
       sort_Slice := insertion_sort |} in
  let d := {| md_read := inr EmptyString; md_create := None;
              md_write := None |} in
  let c := {| Harvester.Path := "a.log"; Harvester.MetaPath := "meta.json" |} in
  exists beater,
    Harvester.NewHarvester lib test_world d c = (inr beater, d) /\
    Harvester.Close beater = Panics.
Proof.
  intros lib d c.
  destruct (Close_and_innerRun_panic_without_reader lib test_world None d 0)
    as [_ H].
  destruct (H c) as (_ & _ & _ & Hnew & Hclose & _).
  exists (Harvester.new_struct c). split; [|exact Hclose].
  exact (Hnew EmptyString eq_refl).
Defined.

(** ** The checkpoint document *)

(** What [Init] would get from [json.Unmarshal] had it passed
    [&beater.meta]: with a decoder that inverts the encoder, the
    checkpoint that was saved. *)
Lemma Unmarshal_by_pointer (lib : Lib) (m m0 : Metadata) :
  json_Valid lib (json_Marshal lib m) = true ->
  json_decode lib (json_Marshal lib m) m0 = inr m ->
  json_Unmarshal lib (json_Marshal lib m) (ByPointer m0) = (None, m).
Proof. intros Hv Hd. unfold json_Unmarshal. now rewrite Hv, Hd. Qed.

(** C2 fails on the code: whatever checkpoint [reportAndSyncMetadata] has
    written, [Init] of a new harvester does not read it back.  It hands
    [json.Unmarshal] the struct instead of a pointer to it, so a valid
    document ends [Init] with [InvalidUnmarshalError] (and an invalid one
    ends it with no error); either way the checkpoint in memory is still
    the empty [Metadata{}], which differs from the checkpoint saved, here
    [checkpoint_48]. *)
Theorem Init_does_not_restore_checkpoint (lib : Lib) (w : World)
    (c : Harvester.Config) (m : Metadata) (d0 : MetaDisk) :
  let saved :=
    Harvester.reportAndSyncMetadata lib
      (Harvester.set_meta (Harvester.new_struct c) m)
      {| md_read := md_read d0; md_create := md_create d0;
         md_write := None |} in
  md_read saved = inr (json_Marshal lib m) /\
  Harvester.Init lib w saved (Harvester.new_struct c)
    = (if json_Valid lib (json_Marshal lib m)
       then Some json_InvalidUnmarshalError else None,
       Harvester.new_struct c, saved) /\
  Harvester.meta (snd (fst (Harvester.Init lib w saved
                              (Harvester.new_struct c)))) = Metadata_zero /\
  Metadata_zero <> checkpoint_48.
Proof.
  intros saved. split; [reflexivity|].
  assert (H : Harvester.Init lib w saved (Harvester.new_struct c)
              = (if json_Valid lib (json_Marshal lib m)
                 then Some json_InvalidUnmarshalError else None,
                 Harvester.new_struct c, saved)).
  { unfold Harvester.Init, json_Unmarshal. simpl.
    destruct (json_Valid lib (json_Marshal lib m)); reflexivity. }
  split; [exact H|]. split; [now rewrite H|discriminate].
Qed.

(** ** Switching files *)

Lemma initReaderFromWait_PreFileINode w published beater :
  match Harvester.initReaderFromWait w published beater with
  | Returns (_, beater') =>
      PreFileINode (Harvester.meta beater')
      = PreFileINode (Harvester.meta beater)
  | _ => True
  end.
Proof.
  unfold Harvester.initReaderFromWait.
  destruct (if (List.length (Harvester.waitDealFiles beater) =? 0)%nat
            then published else Some (Harvester.waitDealFiles beater));
    [|exact I].
  destruct (rev l); [exact I|]. cbv beta iota zeta.
  destruct (ScanReader.NewLineReader _ _ _); reflexivity.
Qed.

(** C4 fails on the code: [switchNextFile] does not touch [PreFileINode];
    no function of the harvester assigns it.  For the harvester at the end
    of "a.log" (identity "8-64") with "b.log" pending, the switch succeeds,
    "b.log" becomes the current file, and [PreFileINode] is still empty. *)
Theorem switchNextFile_leaves_PreFileINode :
  (forall w published beater,
     match Harvester.switchNextFile w published beater with
     | Returns (_, beater') =>
         PreFileINode (Harvester.meta beater')
         = PreFileINode (Harvester.meta beater)
     | _ => True
     end) /\
  (exists beater',
     Harvester.switchNextFile two_logs_world None at_end_of_a_log
       = Returns (None, beater') /\
     CurFileINode (Harvester.meta at_end_of_a_log) = "8-64"%string /\
     CurFile (Harvester.meta beater') = "b.log"%string /\
     CurFileINode (Harvester.meta beater') = "9-64"%string /\
     PreFileINode (Harvester.meta beater') = EmptyString).
Proof.
  split.
  - intros w published beater. unfold Harvester.switchNextFile.
    match goal with
    | |- match Harvester.initReaderFromWait _ _ ?b with _ => _ end =>
        pose proof (initReaderFromWait_PreFileINode w published b) as H;
        assert (E : PreFileINode (Harvester.meta b)
                    = PreFileINode (Harvester.meta beater))
    end.
    { destruct (Harvester.curReader beater);
        destruct (Harvester.match_pos _ _); reflexivity. }
    destruct (Harvester.initReaderFromWait _ _ _) as [[e b']| |];
      [congruence|exact I|exact I].
  - eexists. split; [run_code|]. repeat split.
Qed.

(** ** The files still to be processed *)

Lemma After_false (a b : FileInfo) :
  Harvester.After b a = false <-> ModTime b <= ModTime a.
Proof.
  unfold Harvester.After. rewrite Z.gtb_ltb, Z.ltb_ge. reflexivity.
Qed.

Lemma sorted_newest_first (l : list FileInfo) :
  StronglySorted (fun a b => Harvester.After b a = false) l ->
  StronglySorted (fun a b => ModTime b <= ModTime a) l.
Proof.
  induction 1 as [|a l _ IH Hall]; constructor; [exact IH|].
  rewrite Forall_forall in *. intros b Hb. now apply After_false, Hall.
Qed.

(** What the loop over [source] finds. *)
Lemma match_pos_first (cur : string) (source : list FileInfo) :
  match Harvester.match_pos cur source with
  | Some i =>
      exists item rest,
        source = (firstn i source ++ item :: rest)%list /\
        StateOS_String (GetOSState item) = cur /\
        forall e, In e (firstn i source) ->
                  StateOS_String (GetOSState e) <> cur
  | None =>
      forall e, In e source -> StateOS_String (GetOSState e) <> cur
  end.
Proof.
  induction source as [|item rest IH]; simpl.
  - intros e [].
  - destruct (String.eqb cur (StateOS_String (GetOSState item))) eqn:E.
    + apply String.eqb_eq in E. exists item, rest. simpl.
      repeat split; [now symmetry|]. intros e [].
    + apply String.eqb_neq in E.
      destruct (Harvester.match_pos cur rest) as [i|].
      * destruct IH as (item' & rest' & H1 & H2 & H3).
        exists item', rest'. simpl. rewrite <- H1.
        repeat split; [exact H2|].
        intros e [<-|He]; [congruence|now apply H3].
      * intros e [<-|He]; [congruence|now apply IH].
Qed.

(** C5: given what [sort.Slice] promises, [ignoreAlreadDeal] returns a
    prefix of the entries rearranged by modification time, newest first:
    no entry of the prefix has the identity string of the checkpoint's
    current file, and the entry right after the prefix, if there is one,
    has it.  So the result is exactly what comes before the first match,
    and the whole sorted list when no entry matches. *)
Theorem ignoreAlreadDeal_prefix
    (sort : (FileInfo -> FileInfo -> bool) -> list FileInfo -> list FileInfo)
    (beater : Harvester.harvester) (source : list FileInfo) :
  sort_Slice_ok sort Harvester.After source ->
  let cur := CurFileINode (Harvester.meta beater) in
  let result := Harvester.ignoreAlreadDeal sort beater source in
  exists sorted rest,
    Permutation source sorted /\
    StronglySorted (fun a b => ModTime b <= ModTime a) sorted /\
    sorted = (result ++ rest)%list /\
    (forall e, In e result -> StateOS_String (GetOSState e) <> cur) /\
    match rest with
    | [] => True
    | item :: _ => StateOS_String (GetOSState item) = cur
    end /\
    ((forall e, In e source -> StateOS_String (GetOSState e) <> cur) ->
     result = sorted).
Proof.
  intros [Hperm Hsorted] cur result.
  exists (sort Harvester.After source).
  subst result. unfold Harvester.ignoreAlreadDeal. fold cur.
  pose proof (match_pos_first cur (sort Harvester.After source)) as Hpos.
  destruct (Harvester.match_pos cur (sort Harvester.After source)) as [i|].
  - destruct Hpos as (item & rest & H1 & H2 & H3).
    exists (item :: rest).
    split; [exact Hperm|]. split; [now apply sorted_newest_first|].
    split; [exact H1|]. split; [exact H3|]. split; [exact H2|].
    intros Hnone. exfalso. apply (Hnone item); [|exact H2].
    apply (Permutation_in _ (Permutation_sym Hperm)).
    rewrite H1. apply in_or_app. right. now left.
  - exists []. rewrite firstn_all, app_nil_r.
    split; [exact Hperm|]. split; [now apply sorted_newest_first|].
    split; [reflexivity|]. split; [exact Hpos|]. split; [exact I|].
    reflexivity.
Qed.

Lemma insert_sorted_perm (less : FileInfo -> FileInfo -> bool) (x : FileInfo)
    (l : list FileInfo) :
  Permutation (x :: l) (insert_sorted less x l).
Proof.
  induction l as [|y t IH]; simpl; [reflexivity|].
  destruct (less x y); [reflexivity|].
  rewrite perm_swap. now constructor.
Qed.

Lemma insertion_sort_perm (less : FileInfo -> FileInfo -> bool)
    (l : list FileInfo) :
  Permutation l (insertion_sort less l).
Proof.
  induction l as [|x t IH]; simpl; [constructor|].
  rewrite <- insert_sorted_perm. now constructor.
Qed.

Lemma insert_sorted_newest_first (x : FileInfo) (l : list FileInfo) :
  StronglySorted (fun a b => Harvester.After b a = false) l ->
  StronglySorted (fun a b => Harvester.After b a = false)
                 (insert_sorted Harvester.After x l).
Proof.
  induction 1 as [|y t Ht IH Hall]; simpl.
  - repeat constructor.
  - destruct (Harvester.After x y) eqn:E.
    + constructor; [now constructor|].
      unfold Harvester.After in E. apply Z.gtb_lt in E.
      rewrite Forall_forall in *. intros z [<-|Hz]; apply After_false.
      * lia.
      * specialize (Hall z Hz). apply After_false in Hall. lia.
    + constructor; [exact IH|].
      rewrite Forall_forall in *. intros z Hz.
      apply (Permutation_in _ (Permutation_sym (insert_sorted_perm _ x t)))
        in Hz.
      destruct Hz as [<-|Hz]; [exact E|now apply Hall].
Qed.

(** Insertion sort keeps the promise of [sort.Slice]. *)
Lemma insertion_sort_ok (l : list FileInfo) :
  sort_Slice_ok insertion_sort Harvester.After l.
Proof.
  split; [apply insertion_sort_perm|].
  induction l as [|x t IH]; simpl; [constructor|].
  now apply insert_sorted_newest_first.
Qed.

(** Three files, "a.log" being the current one: only the newer "b.log"
    is left. *)
Lemma ignoreAlreadDeal_prefix_witness :
  sort_Slice_ok insertion_sort Harvester.After [old_log; b_log; a_log] /\
  Harvester.ignoreAlreadDeal insertion_sort at_end_of_a_log
    [old_log; b_log; a_log] = [b_log] /\
  exists sorted rest,
    Permutation [old_log; b_log; a_log] sorted /\
    sorted = ([b_log] ++ rest)%list /\
    match rest with
    | [] => True
    | item :: _ => StateOS_String (GetOSState item) = "8-64"%string
    end.
Proof.
  split; [apply insertion_sort_ok|]. split; [reflexivity|].
  destruct (ignoreAlreadDeal_prefix insertion_sort at_end_of_a_log
              [old_log; b_log; a_log] (insertion_sort_ok _))
    as (sorted & rest & H1 & _ & H3 & _ & H5 & _).
  exists sorted, rest. split; [exact H1|]. split; [exact H3|exact H5].
Defined.

(** * Further properties of the code *)

(** ** Byte strings and offsets *)

Lemma length_app (a b : string) :
  String.length (a ++ b) = (String.length a + String.length b)%nat.
Proof. induction a as [|c a IH]; simpl; [reflexivity|now rewrite IH]. Qed.

Lemma str_app_assoc (a b c : string) : ((a ++ b) ++ c = a ++ b ++ c)%string.
Proof. induction a as [|d a IH]; simpl; [reflexivity|now rewrite IH]. Qed.

Lemma str_drop_app (a b : string) : str_drop (String.length a) (a ++ b) = b.
Proof. induction a as [|c a IH]; simpl; [now destruct b|exact IH]. Qed.

Lemma str_take_app (a b : string) : str_take (String.length a) (a ++ b) = a.
Proof.
  induction a as [|c a IH]; simpl; [now destruct b|now rewrite IH].
Qed.

Lemma str_take_take_app (n : nat) (a b : string) :
  (String.length a <= n)%nat ->
  str_take (String.length a) (str_take n (a ++ b)) = a.
Proof.
  revert n. induction a as [|c a IH]; intros n H; simpl in *.
  - now destruct (str_take n b).
  - destruct n as [|n]; [lia|]. simpl. rewrite IH; [reflexivity|lia].
Qed.

Lemma str_drop_add (n k : nat) (s : string) :
  str_drop (n + k) s = str_drop k (str_drop n s).
Proof.
  revert s. induction n as [|n IH]; intros s; simpl; [reflexivity|].
  destruct s as [|c s]; [now destruct k|apply IH].
Qed.

Lemma str_take_all (n : nat) (s : string) :
  (String.length s <= n)%nat -> str_take n s = s.
Proof.
  revert n. induction s as [|c s IH]; intros n H; simpl in *.
  - now destruct n.
  - destruct n as [|n]; [lia|]. simpl. rewrite IH; [reflexivity|lia].
Qed.

Lemma str_take_length (n : nat) (s : string) :
  (n <= String.length s)%nat -> String.length (str_take n s) = n.
Proof.
  revert s. induction n as [|n IH]; intros s H; simpl; [reflexivity|].
  destruct s as [|c s]; simpl in *; [lia|]. rewrite IH; [reflexivity|lia].
Qed.

Lemma IndexByte_app (l rest : string) (c : ascii) :
  IndexByte l c = None ->
  IndexByte (l ++ String c rest) c = Some (String.length l).
Proof.
  induction l as [|d l IH]; simpl.
  - intros _. now rewrite Ascii.eqb_refl.
  - destruct (Ascii.eqb d c); [discriminate|].
    destruct (IndexByte l c); [discriminate|]. intros _. now rewrite IH.
Qed.

Lemma IndexByte_bound (s : string) (c : ascii) (i : nat) :
  IndexByte s c = Some i -> (i < String.length s)%nat.
Proof.
  revert i. induction s as [|d s IH]; intros i; simpl; [discriminate|].
  destruct (Ascii.eqb d c); [intros [= <-]; lia|].
  destruct (IndexByte s c) as [j|]; [|discriminate].
  intros [= <-]. specialize (IH j eq_refl). lia.
Qed.

Lemma IndexByte_in_take (n : nat) (s : string) (c : ascii) (i : nat) :
  IndexByte s c = Some i -> (i < n)%nat ->
  IndexByte (str_take n s) c = Some i.
Proof.
  revert s i. induction n as [|n IH]; intros s i; [lia|].
  destruct s as [|d s]; simpl; [discriminate|].
  destruct (Ascii.eqb d c); [auto|].
  destruct (IndexByte s c) as [j|] eqn:E; [|discriminate].
  intros [= <-] H. rewrite (IH s j E); [reflexivity|lia].
Qed.

Lemma IndexByte_none_take (n : nat) (s : string) (c : ascii) :
  IndexByte s c = None -> IndexByte (str_take n s) c = None.
Proof.
  revert s. induction n as [|n IH]; intros s; [now destruct s|].
  destruct s as [|d s]; simpl; [reflexivity|].
  destruct (Ascii.eqb d c); [discriminate|].
  destruct (IndexByte s c) eqn:E; [discriminate|].
  intros _. now rewrite IH.
Qed.

Lemma wrap64_add_l (a b : Z) : wrap64 (wrap64 a + b) = wrap64 (a + b).
Proof.
  unfold wrap64. f_equal.
  replace ((a + 2 ^ 63) mod 2 ^ 64 - 2 ^ 63 + b + 2 ^ 63)
    with ((a + 2 ^ 63) mod 2 ^ 64 + b) by lia.
  rewrite Zplus_mod_idemp_l. f_equal. lia.
Qed.

Lemma int64_add_assoc (a b c : Z) :
  int64_add (int64_add a b) c = int64_add a (b + c).
Proof.
  unfold int64_add. rewrite wrap64_add_l. f_equal. lia.
Qed.

Lemma total_len_nonneg (records : list string) : 0 <= total_len records.
Proof.
  induction records as [|r t IH]; simpl; [lia|].
  pose proof (len_nonneg r). lia.
Qed.

(** ** One line in front of a reader *)

Lemma ReadSlice_line (all : string) (fin : error) (b : bufio_Reader)
    (l rest : string) :
  str_drop (rd_off b) all = (l ++ nl ++ rest)%string ->
  line_within defaultBufSize l ->
  ReadSlice all fin b
    = (((l ++ nl)%string, None), {| rd_off := rd_off b + S (String.length l) |}).
Proof.
  intros Hrest [Hno Hlen]. unfold ReadSlice. rewrite Hrest.
  pose proof (IndexByte_app l rest delimLabel Hno) as Hi.
  change (String delimLabel rest) with (nl ++ rest)%string in Hi.
  rewrite (IndexByte_in_take _ _ _ _ Hi Hlen).
  do 3 f_equal.
  replace (S (String.length l)) with (String.length (l ++ nl)).
  - rewrite <- str_app_assoc. apply str_take_app.
  - rewrite length_app. simpl. lia.
Qed.

Lemma Scan_line (all : string) (fin : error) (s : bufio_Scanner)
    (l rest : string) :
  sc_err s = None ->
  str_drop (sc_start s) all = (l ++ nl ++ rest)%string ->
  line_within MaxScanTokenSize l ->
  Scan all fin s
    = (true, {| sc_start := sc_start s + S (String.length l);
                sc_end := sc_end s; sc_err := None;
                sc_token := dropCR l |}).
Proof.
  intros He Hrest [Hno Hlen]. unfold Scan. rewrite He, Hrest.
  pose proof (IndexByte_app l rest delimLabel Hno) as Hi.
  change (String delimLabel rest) with (nl ++ rest)%string in Hi.
  unfold ScanLines. cbn [andb].
  rewrite (IndexByte_in_take _ _ _ _ Hi Hlen).
  do 4 f_equal. apply str_take_take_app. lia.
Qed.

Lemma Split_terminated (l : string) :
  IndexByte l delimLabel = None ->
  first_field (strings_Split (l ++ nl) delimLabel) = l.
Proof.
  intros Hno.
  pose proof (IndexByte_app l EmptyString delimLabel Hno) as Hi.
  change (String delimLabel EmptyString) with nl in Hi.
  pose proof (Split_line _ _ _ Hi) as H.
  rewrite str_take_all in H by (rewrite length_app; simpl; lia).
  rewrite H. apply str_take_app.
Qed.

Lemma SliceReader_Next_line (w : World) (line : SliceReader.LineReader)
    (b : bufio_Reader) (off : Z) (l rest : string) :
  SliceReader.closed line <> 1 ->
  SliceReader.reader line = Some b ->
  str_drop (rd_off b) (File_bytes w (SliceReader.curFile line))
    = (l ++ nl ++ rest)%string ->
  line_within defaultBufSize l ->
  SliceReader.Next w line off
    = Returns (l, None,
               SliceReader.set_reader line
                 {| rd_off := rd_off b + S (String.length l) |},
               int64_add off (len l + 1)).
Proof.
  intros Hc Hr Hrest Hl. unfold SliceReader.Next.
  destruct (SliceReader.closed line =? 1) eqn:E; [lia|].
  rewrite Hr, (ReadSlice_line _ _ _ _ _ Hrest Hl).
  cbv beta iota zeta. rewrite (Split_terminated _ (proj1 Hl)).
  unfold len. rewrite length_app. simpl String.length.
  do 3 f_equal. lia.
Qed.

Lemma ScanReader_Next_line (w : World) (line : ScanReader.LineReader)
    (s : bufio_Scanner) (off : Z) (l rest : string) :
  ScanReader.closed line <> 1 ->
  ScanReader.reader line = Some s ->
  sc_err s = None ->
  str_drop (sc_start s) (File_bytes w (ScanReader.curFile line))
    = (l ++ nl ++ rest)%string ->
  line_within MaxScanTokenSize l ->
  ScanReader.Next w line off
    = Returns (dropCR l, None,
               ScanReader.set_reader line
                 {| sc_start := sc_start s + S (String.length l);
                    sc_end := sc_end s; sc_err := None;
                    sc_token := dropCR l |},
               int64_add off (len (dropCR l))).
Proof.
  intros Hc Hr He Hrest Hl. unfold ScanReader.Next.
  destruct (ScanReader.closed line =? 1) eqn:E; [lia|].
  rewrite Hr, (Scan_line _ _ _ _ _ He Hrest Hl).
  cbv beta iota zeta. unfold Text. cbn [sc_token].
  rewrite (Split_plain _ _ (IndexByte_dropCR _ (proj1 Hl))).
  reflexivity.
Qed.

(** ** What [Next] leaves alone *)

(** X1. [Next] never touches the handle, the origin name or the closed
    flag of the reader, and when it returns an error the record is empty
    and the offset is what it was.  Both readers. *)
Theorem Next_frame (w : World) (off off' : Z) (msg : string)
    (err : option error) :
  (forall line line' : SliceReader.LineReader,
     SliceReader.Next w line off = Returns (msg, err, line', off') ->
     SliceReader.closed line' = SliceReader.closed line /\
     SliceReader.originName line' = SliceReader.originName line /\
     SliceReader.curFile line' = SliceReader.curFile line /\
     (err <> None -> msg = EmptyString /\ off' = off)) /\
  (forall line line' : ScanReader.LineReader,
     ScanReader.Next w line off = Returns (msg, err, line', off') ->
     ScanReader.closed line' = ScanReader.closed line /\
     ScanReader.originName line' = ScanReader.originName line /\
     ScanReader.curFile line' = ScanReader.curFile line /\
     (err <> None -> msg = EmptyString /\ off' = off)).
Proof.
  split; intros line line'.
  - unfold SliceReader.Next.
    destruct (SliceReader.closed line =? 1).
    { intros [= <- <- <- <-]. auto. }
    destruct (SliceReader.reader line) as [b|]; [|discriminate].
    destruct (ReadSlice _ _ b) as [[m [e|]] b'].
    + destruct (is_EOF e).
      * destruct (readOpen _ _) as [e'|f].
        { destruct (is_ErrNotExist e'); intros [= <- <- <- <-]; auto. }
        destruct (isRemoved _ _); [intros [= <- <- <- <-]; auto|].
        destruct (negb _); intros [= <- <- <- <-]; auto.
      * intros [= <- <- <- <-]. auto.
    + intros [= <- <- <- <-]. do 3 (split; [reflexivity|]). intros Hn. now elim Hn.
  - unfold ScanReader.Next.
    destruct (ScanReader.closed line =? 1).
    { intros [= <- <- <- <-]. auto. }
    destruct (ScanReader.reader line) as [s|]; [|discriminate].
    destruct (Scan _ _ s) as [[|] s'].
    + intros [= <- <- <- <-]. do 3 (split; [reflexivity|]). intros Hn. now elim Hn.
    + destruct (is_EOF _).
      * destruct (readOpen _ _) as [e'|f].
        { destruct (is_ErrNotExist e'); intros [= <- <- <- <-]; auto. }
        destruct (isRemoved _ _); [intros [= <- <- <- <-]; auto|].
        destruct (negb _); intros [= <- <- <- <-]; auto.
      * intros [= <- <- <- <-]. auto.
Qed.

Lemma Next_frame_witness :
  let w := a_log_world EmptyString (inr 2%nat) 1 in
  exists line line',
    SliceReader.NewLineReader w "a.log" 7 = inr line /\
    SliceReader.Next w line 7
      = Returns (EmptyString, Some io_EOF, line', 7) /\
    SliceReader.curFile line' = SliceReader.curFile line.
Proof.
  intros w. do 2 eexists. split; [run_code|].
  match goal with |- ?P /\ _ => assert (H : P) by run_code end.
  split; [exact H|].
  exact (proj1 (proj2 (proj2
           (proj1 (Next_frame w 7 7 EmptyString (Some io_EOF)) _ _ H)))).
Defined.

Lemma SliceReader_Next_no_delimiter (w : World) (off off' : Z)
    (msg : string) (line line' : SliceReader.LineReader) :
  SliceReader.Next w line off = Returns (msg, None, line', off') ->
  IndexByte msg delimLabel = None.
Proof.
  unfold SliceReader.Next.
  destruct (SliceReader.closed line =? 1); [discriminate|].
  destruct (SliceReader.reader line) as [b|]; [|discriminate].
  unfold ReadSlice.
  remember (str_drop (rd_off b) _) as rest eqn:Hrest. clear Hrest.
  destruct (IndexByte (str_take defaultBufSize rest) delimLabel)
    as [i|] eqn:E.
  - apply IndexByte_take in E. cbv beta iota zeta.
    rewrite (Split_line _ _ _ E). intros [= <- _ _].
    now apply IndexByte_prefix.
  - destruct (defaultBufSize <=? String.length rest)%nat; cbn.
    + discriminate.
    + destruct (is_EOF _); [|discriminate].
      destruct (readOpen _ _) as [e|f].
      { destruct (is_ErrNotExist e); discriminate. }
      destruct (isRemoved _ _); [discriminate|].
      destruct (negb _); discriminate.
Qed.

Lemma ScanReader_Next_no_delimiter (w : World) (off off' : Z)
    (msg : string) (line line' : ScanReader.LineReader) :
  ScanReader.Next w line off = Returns (msg, None, line', off') ->
  IndexByte msg delimLabel = None.
Proof.
  unfold ScanReader.Next.
  destruct (ScanReader.closed line =? 1); [discriminate|].
  destruct (ScanReader.reader line) as [s|]; [|discriminate].
  destruct (Scan _ _ s) as [[|] s'] eqn:E.
  - apply Scan_token in E. unfold Text.
    rewrite (Split_plain _ _ E). now intros [= <- _ _].
  - destruct (is_EOF _); [|discriminate].
    destruct (readOpen _ _) as [e|f].
    { destruct (is_ErrNotExist e); discriminate. }
    destruct (isRemoved _ _); [discriminate|].
    destruct (negb _); discriminate.
Qed.

(** X2. A record that [Next] returns holds no delimiter.  Both
    readers. *)
Theorem Next_record_has_no_delimiter (w : World) (off off' : Z)
    (msg : string) :
  (forall line line' : SliceReader.LineReader,
     SliceReader.Next w line off = Returns (msg, None, line', off') ->
     IndexByte msg delimLabel = None) /\
  (forall line line' : ScanReader.LineReader,
     ScanReader.Next w line off = Returns (msg, None, line', off') ->
     IndexByte msg delimLabel = None).
Proof.
  split; intros line line'.
  - apply SliceReader_Next_no_delimiter.
  - apply ScanReader_Next_no_delimiter.
Qed.

Lemma Next_record_has_no_delimiter_witness :
  exists line line',
    ScanReader.NewLineReader two_lines_world "a.log" 0 = inr line /\
    ScanReader.Next two_lines_world line 0
      = Returns ("a"%string, None, line', 1) /\
    IndexByte "a" delimLabel = None.
Proof.
  do 2 eexists. split; [run_code|].
  match goal with |- ?P /\ _ => assert (H : P) by run_code end.
  split; [exact H|].
  exact (proj2 (Next_record_has_no_delimiter two_lines_world 0 1 "a")
           _ _ H).
Defined.

(** ** Reading back what was written *)

Lemma len_write_lines_cons (l : string) (t : list string) :
  len (write_lines (l :: t)) = len l + 1 + len (write_lines t).
Proof.
  unfold len. simpl write_lines. rewrite !length_app. simpl String.length.
  lia.
Qed.

Lemma drop_past_line (n : nat) (all l rest : string) :
  str_drop n all = (l ++ nl ++ rest)%string ->
  str_drop (n + S (String.length l)) all = rest.
Proof.
  intros H. rewrite str_drop_add, H.
  replace (S (String.length l)) with (String.length (l ++ nl)).
  - rewrite <- str_app_assoc. apply str_drop_app.
  - rewrite length_app. simpl. lia.
Qed.

Lemma wrap64_range (z : Z) : in_int64 (wrap64 z).
Proof.
  unfold in_int64, int64_min, int64_max, wrap64.
  pose proof (Z.mod_pos_bound (z + 2 ^ 63) (2 ^ 64) ltac:(lia)). lia.
Qed.

Lemma SliceReader_Next_at_end (w : World) (line : SliceReader.LineReader)
    (b : bufio_Reader) (off : Z) (rest : string) :
  SliceReader.closed line <> 1 ->
  SliceReader.reader line = Some b ->
  str_drop (rd_off b) (File_bytes w (SliceReader.curFile line)) = rest ->
  IndexByte rest delimLabel = None ->
  (String.length rest < defaultBufSize)%nat ->
  exists err,
    SliceReader.Next w line off
      = Returns (EmptyString, Some err,
                 SliceReader.set_reader line
                   {| rd_off := rd_off b + String.length rest |}, off).
Proof.
  intros Hc Hr Hrest Hno Hlen. unfold SliceReader.Next.
  destruct (SliceReader.closed line =? 1) eqn:E; [lia|].
  rewrite Hr. unfold ReadSlice. rewrite Hrest.
  rewrite (IndexByte_none_take _ _ _ Hno).
  destruct (defaultBufSize <=? String.length rest)%nat eqn:El;
    [apply Nat.leb_le in El; lia|].
  cbv beta iota zeta. destruct (is_EOF _); [|eauto].
  destruct (readOpen _ _) as [e|f].
  - destruct (is_ErrNotExist e); eauto.
  - destruct (isRemoved _ _); [eauto|]. destruct (negb _); eauto.
Qed.

(** X3. The reader built on [ReadSlice] reads back what was written: when
    the bytes in front of it are [lines], each followed by a newline, each
    free of newlines and shorter than the buffer, then [Next] called once
    per line returns exactly [lines] in order, the offset has advanced
    (with [int64] wrap-around) by the number of bytes of those lines with
    their delimiters, the reader has taken just those bytes, and one more
    call returns an error, an empty record and the same offset. *)
Theorem SliceReader_reads_back (w : World) (lines : list string) :
  forall (line : SliceReader.LineReader) (b : bufio_Reader) (off : Z),
    SliceReader.closed line <> 1 ->
    SliceReader.reader line = Some b ->
    str_drop (rd_off b) (File_bytes w (SliceReader.curFile line))
      = write_lines lines ->
    Forall (line_within defaultBufSize) lines ->
    in_int64 off ->
    let off' := int64_add off (len (write_lines lines)) in
    exists line',
      drain (SliceReader.Next w) (List.length lines) line off
        = (lines, Some (line', off')) /\
      SliceReader.reader line'
        = Some {| rd_off := rd_off b + String.length (write_lines lines) |} /\
      SliceReader.curFile line' = SliceReader.curFile line /\
      exists err line'',
        SliceReader.Next w line' off'
          = Returns (EmptyString, Some err, line'', off').
Proof.
  induction lines as [|l t IH]; intros line b off Hc Hr Hrest Hall Hoff off'.
  - exists line. subst off'. unfold len. simpl String.length.
    simpl Z.of_nat. unfold int64_add.
    rewrite Z.add_0_r, (wrap64_small _ Hoff), Nat.add_0_r.
    split; [reflexivity|]. split; [now destruct b|].
    split; [reflexivity|].
    destruct (SliceReader_Next_at_end w line b off EmptyString Hc Hr Hrest
                eq_refl) as [err H]; [simpl; unfold defaultBufSize; lia|].
    eauto.
  - inversion Hall as [|? ? Hl Ht]; subst.
    pose proof (SliceReader_Next_line w line b off l (write_lines t)
                  Hc Hr Hrest Hl) as Hnext.
    set (b1 := {| rd_off := rd_off b + S (String.length l) |}) in *.
    set (line1 := SliceReader.set_reader line b1) in *.
    destruct (IH line1 b1 (int64_add off (len l + 1)) Hc eq_refl
                (drop_past_line _ _ _ _ Hrest) Ht (wrap64_range _))
      as (line' & Hd & Hr' & Hf & Hend).
    exists line'. subst off'.
    rewrite len_write_lines_cons.
    rewrite int64_add_assoc in Hd, Hend.
    split.
    + cbn [drain List.length]. rewrite Hnext, Hd. reflexivity.
    + split; [|split; [exact Hf|exact Hend]].
      rewrite Hr'. simpl write_lines. rewrite !length_app.
      simpl. do 2 f_equal. lia.
Qed.

(** The file of the test, read back. *)
Lemma SliceReader_reads_back_witness :
  exists line line',
    SliceReader.NewLineReader test_world "./test_linereader_file.log" 0
      = inr line /\
    Forall (line_within defaultBufSize) test_lines /\
    drain (SliceReader.Next test_world) 10 line 0
      = (test_lines, Some (line', 161)).
Proof.
  eexists. 
  assert (Hall : Forall (line_within defaultBufSize) test_lines).
  { repeat (apply Forall_cons;
              [split; [reflexivity|simpl String.length;
                                   unfold defaultBufSize; lia]|]).
    apply Forall_nil. }
  destruct (SliceReader_reads_back test_world test_lines
              {| SliceReader.closed := 0;
                 SliceReader.originName := "./test_linereader_file.log";
                 SliceReader.curFile :=
                   {| fd_obj := 1; fd_name := "./test_linereader_file.log";
                      fd_flag := 0; fd_pos := 0; fd_closed := false |};
                 SliceReader.reader := Some {| rd_off := 0 |} |}
              {| rd_off := 0 |} 0 ltac:(discriminate) eq_refl eq_refl Hall
              ltac:(unfold in_int64, int64_min, int64_max; lia))
    as (line' & Hd & _).
  exists line'. split; [reflexivity|]. split; [exact Hall|]. exact Hd.
Defined.

Lemma str_drop_length (n : nat) (s : string) :
  String.length (str_drop n s) = (String.length s - n)%nat.
Proof.
  revert s. induction n as [|n IH]; intros s; simpl; [lia|].
  destruct s as [|c s]; simpl; [reflexivity|apply IH].
Qed.

Lemma ScanLines_empty (atEOF : bool) : ScanLines EmptyString atEOF = (O, None).
Proof. now destruct atEOF. Qed.

(** The scanner with nothing left in its buffer and an error kept. *)
Lemma Scan_held_empty (all : string) (s : bufio_Scanner) (e : error) :
  sc_start s = sc_end s ->
  Scan_held all s e
    = (false, {| sc_start := O; sc_end := O; sc_err := Some e;
                 sc_token := EmptyString |}).
Proof.
  intros H. unfold Scan_held. rewrite H, Nat.sub_diag.
  replace (str_take 0 (str_drop (sc_end s) all)) with EmptyString
    by now destruct (str_drop (sc_end s) all).
  reflexivity.
Qed.

Lemma Scan_at_end (all : string) (fin : error) (s : bufio_Scanner) :
  sc_err s = None ->
  str_drop (sc_start s) all = EmptyString ->
  Scan all fin s
    = (false, {| sc_start := O; sc_end := O; sc_err := Some fin;
                 sc_token := EmptyString |}).
Proof.
  intros He Hrest. unfold Scan. rewrite He, Hrest.
  rewrite str_take_all by (cbn [String.length]; lia).
  rewrite ScanLines_empty.
  destruct MaxScanTokenSize_pos as [n Hn]. rewrite Hn at 1.
  cbn [String.length Nat.leb]. unfold Scan_held. cbn [sc_start sc_end].
  rewrite Hrest, str_take_all by (cbn [String.length]; lia). reflexivity.
Qed.

Lemma Scan_last_line (all : string) (fin : error) (s : bufio_Scanner)
    (rest : string) :
  sc_err s = None ->
  str_drop (sc_start s) all = rest ->
  rest <> EmptyString ->
  line_within MaxScanTokenSize rest ->
  Scan all fin s
    = (true, {| sc_start := sc_start s + String.length rest;
                sc_end := String.length all; sc_err := Some fin;
                sc_token := dropCR rest |}).
Proof.
  intros He Hrest Hne [Hno Hlen]. unfold Scan. rewrite He, Hrest.
  rewrite str_take_all by lia.
  assert (Hl : String.length rest <> O) by (destruct rest; simpl; congruence).
  unfold ScanLines at 1. cbn [andb]. rewrite Hno.
  destruct (MaxScanTokenSize <=? String.length rest)%nat eqn:E;
    [apply Nat.leb_le in E; lia|].
  unfold Scan_held. cbn [sc_start sc_end]. rewrite Hrest.
  rewrite str_take_all
    by (rewrite <- Hrest, str_drop_length; lia).
  unfold ScanLines. rewrite Hno.
  destruct (String.length rest =? 0)%nat eqn:E0;
    [apply Nat.eqb_eq in E0; lia|].
  reflexivity.
Qed.

Lemma ScanReader_Next_at_end (w : World) (line : ScanReader.LineReader)
    (s : bufio_Scanner) (off : Z) :
  ScanReader.closed line <> 1 ->
  ScanReader.reader line = Some s ->
  sc_err s = None ->
  str_drop (sc_start s) (File_bytes w (ScanReader.curFile line))
    = EmptyString ->
  exists err,
    ScanReader.Next w line off
      = Returns (EmptyString, Some err,
                 ScanReader.set_reader line
                   {| sc_start := O; sc_end := O;
                      sc_err := Some (File_end w (ScanReader.curFile line));
                      sc_token := EmptyString |}, off).
Proof.
  intros Hc Hr He Hrest. unfold ScanReader.Next.
  destruct (ScanReader.closed line =? 1) eqn:E; [lia|].
  rewrite Hr, (Scan_at_end _ _ _ He Hrest).
  cbv beta iota zeta. destruct (is_EOF _); [|eauto].
  destruct (readOpen _ _) as [e|f].
  - destruct (is_ErrNotExist e); eauto.
  - destruct (isRemoved _ _); [eauto|]. destruct (negb _); eauto.
Qed.

(** X4. The reader built on [bufio.Scanner] reads back what was written,
    less the carriage returns: when the bytes in front of it are [lines],
    each followed by a newline, each free of newlines and shorter than the
    largest token, then [Next] called once per line returns the lines in
    order, each without one trailing carriage return; the offset has
    advanced (with [int64] wrap-around) by the lengths of the records
    alone, while the scanner has taken all the bytes of the lines; and one
    more call returns an error, an empty record and the same offset. *)
Theorem ScanReader_reads_back (w : World) (lines : list string) :
  forall (line : ScanReader.LineReader) (s : bufio_Scanner) (off : Z),
    ScanReader.closed line <> 1 ->
    ScanReader.reader line = Some s ->
    sc_err s = None ->
    str_drop (sc_start s) (File_bytes w (ScanReader.curFile line))
      = write_lines lines ->
    Forall (line_within MaxScanTokenSize) lines ->
    in_int64 off ->
    let off' := int64_add off (total_len (map dropCR lines)) in
    exists line' s',
      drain (ScanReader.Next w) (List.length lines) line off
        = (map dropCR lines, Some (line', off')) /\
      ScanReader.reader line' = Some s' /\
      sc_start s' = (sc_start s + String.length (write_lines lines))%nat /\
      sc_err s' = None /\
      ScanReader.closed line' = ScanReader.closed line /\
      ScanReader.curFile line' = ScanReader.curFile line /\
      exists err line'',
        ScanReader.Next w line' off'
          = Returns (EmptyString, Some err, line'', off').
Proof.
  induction lines as [|l t IH];
    intros line s off Hc Hr He Hrest Hall Hoff off'.
  - exists line, s. subst off'. simpl total_len. unfold int64_add.
    rewrite Z.add_0_r, (wrap64_small _ Hoff).
    split; [reflexivity|]. split; [exact Hr|].
    split; [simpl; lia|]. split; [exact He|].
    split; [reflexivity|]. split; [reflexivity|].
    destruct (ScanReader_Next_at_end w line s off Hc Hr He Hrest)
      as [err H]. eauto.
  - inversion Hall as [|? ? Hl Ht]; subst.
    pose proof (ScanReader_Next_line w line s off l (write_lines t)
                  Hc Hr He Hrest Hl) as Hnext.
    set (s1 := {| sc_start := sc_start s + S (String.length l);
                  sc_end := sc_end s; sc_err := None;
                  sc_token := dropCR l |}) in *.
    set (line1 := ScanReader.set_reader line s1) in *.
    destruct (IH line1 s1 (int64_add off (len (dropCR l))) Hc eq_refl
                eq_refl (drop_past_line _ _ _ _ Hrest) Ht (wrap64_range _))
      as (line' & s' & Hd & Hr' & Hs' & He' & Hc' & Hf & Hend).
    exists line', s'. subst off'. simpl map. simpl total_len.
    rewrite int64_add_assoc in Hd, Hend.
    split.
    + cbn [drain List.length]. rewrite Hnext, Hd. reflexivity.
    + split; [exact Hr'|]. split.
      * rewrite Hs'. simpl write_lines. rewrite !length_app. simpl. lia.
      * split; [exact He'|]. split; [exact Hc'|].
        split; [exact Hf|exact Hend].
Qed.

Lemma ScanReader_reads_back_witness :
  exists line line',
    ScanReader.NewLineReader test_world "./test_linereader_file.log" 0
      = inr line /\
    Forall (line_within MaxScanTokenSize) test_lines /\
    drain (ScanReader.Next test_world) 10 line 0
      = (test_lines, Some (line', 151)).
Proof.
  eexists.
  assert (Hall : Forall (line_within MaxScanTokenSize) test_lines).
  { destruct MaxScanTokenSize_pos as [n Hn].
    assert (Hbig : (16 < MaxScanTokenSize)%nat).
    { unfold MaxScanTokenSize. change 16%nat with (Z.to_nat 16).
      apply Z2Nat.inj_lt; lia. }
    repeat (apply Forall_cons;
            [split; [reflexivity|simpl String.length; lia]|]).
    apply Forall_nil. }
  destruct (ScanReader_reads_back test_world test_lines
              {| ScanReader.closed := 0;
                 ScanReader.originName := "./test_linereader_file.log";
                 ScanReader.curFile :=
                   {| fd_obj := 1; fd_name := "./test_linereader_file.log";
                      fd_flag := 0; fd_pos := 0; fd_closed := false |};
                 ScanReader.reader := Some ScanReader.NewScanner |}
              ScanReader.NewScanner 0 ltac:(discriminate) eq_refl eq_refl
              eq_refl Hall
              ltac:(unfold in_int64, int64_min, int64_max; lia))
    as (line' & s' & Hd & _).
  exists line'. split; [reflexivity|]. split; [exact Hall|]. exact Hd.
Defined.

(** ** The end of the input *)

(** X5. The reader built on [ReadSlice] loses an unfinished last line.
    When the file ends in bytes without a newline ([partial], shorter than
    the buffer), [Next] returns an error and an empty record, leaves the
    offset alone, yet has taken those bytes out of the buffered reader;
    when the file has grown by the rest of the line and its newline, the
    following [Next] returns that rest alone, and the offset advances by
    the length of the rest and its delimiter only. *)
Theorem SliceReader_loses_unfinished_line (w w' : World)
    (line : SliceReader.LineReader) (b : bufio_Reader) (off : Z)
    (pre partial tail rest : string) :
  SliceReader.closed line <> 1 ->
  SliceReader.reader line = Some b ->
  rd_off b = String.length pre ->
  File_bytes w (SliceReader.curFile line) = (pre ++ partial)%string ->
  IndexByte partial delimLabel = None ->
  (String.length partial < defaultBufSize)%nat ->
  File_bytes w' (SliceReader.curFile line)
    = (pre ++ partial ++ tail ++ nl ++ rest)%string ->
  line_within defaultBufSize tail ->
  exists err line1 line2,
    SliceReader.Next w line off
      = Returns (EmptyString, Some err, line1, off) /\
    SliceReader.reader line1
      = Some {| rd_off := String.length pre + String.length partial |} /\
    SliceReader.Next w' line1 off
      = Returns (tail, None, line2, int64_add off (len tail + 1)).
Proof.
  intros Hc Hr Hb Hw Hno Hlen Hw' Htail.
  assert (H1 : str_drop (rd_off b) (File_bytes w (SliceReader.curFile line))
               = partial).
  { rewrite Hb, Hw. apply str_drop_app. }
  destruct (SliceReader_Next_at_end w line b off partial Hc Hr H1 Hno Hlen)
    as [err Hnext].
  set (b1 := {| rd_off := rd_off b + String.length partial |}) in *.
  set (line1 := SliceReader.set_reader line b1) in *.
  assert (H2 : str_drop (rd_off b1)
                 (File_bytes w' (SliceReader.curFile line1))
               = (tail ++ nl ++ rest)%string).
  { change (SliceReader.curFile line1) with (SliceReader.curFile line).
    subst b1. cbn [rd_off]. rewrite Hw', Hb, str_drop_add.
    now rewrite !str_drop_app. }
  exists err, line1. eexists.
  split; [exact Hnext|]. split; [subst b1; simpl; now rewrite Hb|].
  exact (SliceReader_Next_line w' line1 b1 off tail rest Hc eq_refl H2 Htail).
Qed.

Lemma SliceReader_loses_unfinished_line_witness :
  let w := a_log_world "ab" (inr 1%nat) 1 in
  let w' := a_log_world ("abc" ++ nl) (inr 1%nat) 1 in
  exists line line1 line2,
    SliceReader.NewLineReader w "a.log" 0 = inr line /\
    SliceReader.Next w line 0 = Returns (EmptyString, Some io_EOF, line1, 0) /\
    SliceReader.Next w' line1 0 = Returns ("c"%string, None, line2, 2).
Proof.
  intros w w'. eexists.
  destruct (SliceReader_loses_unfinished_line w w'
              {| SliceReader.closed := 0; SliceReader.originName := "a.log";
                 SliceReader.curFile :=
                   {| fd_obj := 1; fd_name := "a.log"; fd_flag := 0;
                      fd_pos := 0; fd_closed := false |};
                 SliceReader.reader := Some {| rd_off := 0 |} |}
              {| rd_off := 0 |} 0 EmptyString "ab" "c" EmptyString
              ltac:(discriminate) eq_refl eq_refl eq_refl eq_refl
              ltac:(simpl; unfold defaultBufSize; lia) eq_refl
              ltac:(split; [reflexivity|simpl; unfold defaultBufSize; lia]))
    as (err & line1 & line2 & H1 & _ & H2).
  exists line1, line2. split; [reflexivity|].
  assert (He : err = io_EOF).
  { vm_compute in H1. now injection H1 as <- _. }
  subst err. split; [exact H1|exact H2].
Defined.

(** X6. The reader built on [bufio.Scanner] delivers an unfinished last
    line.  When what is left of the file is not empty, holds no newline
    and is shorter than the largest token, [Next] returns it as a record
    (less one trailing carriage return) and advances the offset by the
    length of that record. *)
Theorem ScanReader_delivers_unfinished_line (w : World)
    (line : ScanReader.LineReader) (s : bufio_Scanner) (off : Z)
    (rest : string) :
  ScanReader.closed line <> 1 ->
  ScanReader.reader line = Some s ->
  sc_err s = None ->
  str_drop (sc_start s) (File_bytes w (ScanReader.curFile line)) = rest ->
  rest <> EmptyString ->
  line_within MaxScanTokenSize rest ->
  exists line',
    ScanReader.Next w line off
      = Returns (dropCR rest, None, line', int64_add off (len (dropCR rest))).
Proof.
  intros Hc Hr He Hrest Hne Hl. unfold ScanReader.Next.
  destruct (ScanReader.closed line =? 1) eqn:E; [lia|].
  rewrite Hr, (Scan_last_line _ _ _ _ He Hrest Hne Hl).
  cbv beta iota zeta. unfold Text. cbn [sc_token].
  rewrite (Split_plain _ _ (IndexByte_dropCR _ (proj1 Hl))).
  eexists. reflexivity.
Qed.

Lemma ScanReader_delivers_unfinished_line_witness :
  let w := a_log_world "ab" (inr 1%nat) 1 in
  exists line line',
    ScanReader.NewLineReader w "a.log" 0 = inr line /\
    ScanReader.Next w line 0 = Returns ("ab"%string, None, line', 2).
Proof.
  intros w. eexists.
  assert (Hbig : (2 < MaxScanTokenSize)%nat).
  { unfold MaxScanTokenSize. change 2%nat with (Z.to_nat 2).
    apply Z2Nat.inj_lt; lia. }
  destruct (ScanReader_delivers_unfinished_line w
              {| ScanReader.closed := 0; ScanReader.originName := "a.log";
                 ScanReader.curFile :=
                   {| fd_obj := 1; fd_name := "a.log"; fd_flag := 0;
                      fd_pos := 0; fd_closed := false |};
                 ScanReader.reader := Some ScanReader.NewScanner |}
              ScanReader.NewScanner 0 "ab"
              ltac:(discriminate) eq_refl eq_refl eq_refl
              ltac:(discriminate)
              ltac:(split; [reflexivity|exact Hbig]))
    as (line' & H).
  exists line'. split; [reflexivity|exact H].
Defined.

Lemma Scan_false (all : string) (fin : error) (s s' : bufio_Scanner) :
  Scan all fin s = (false, s') ->
  (exists e, s' = {| sc_start := O; sc_end := O; sc_err := Some e;
                     sc_token := EmptyString |}) \/
  Err s' = Some bufio_ErrTooLong.
Proof.
  assert (Hheld : forall s0 e,
            Scan_held all s0 e = (false, s') ->
            exists e', s' = {| sc_start := O; sc_end := O; sc_err := Some e';
                               sc_token := EmptyString |}).
  { intros s0 e. unfold Scan_held.
    destruct (ScanLines _ true) as [adv [tok|]]; [discriminate|].
    intros [= <-]. now exists e. }
  unfold Scan. destruct (sc_err s) as [e|].
  - intros H. left. eapply Hheld; eauto.
  - destruct (ScanLines _ false) as [adv [tok|]]; [discriminate|].
    destruct (MaxScanTokenSize <=? _)%nat.
    + intros [= <-]. right. reflexivity.
    + intros H. left. eapply Hheld; eauto.
Qed.

(** X7. The reader built on [bufio.Scanner] does not resume.  Once a
    [Next] has returned an error other than [ErrTooLong] (it was closed,
    or its scanner came to the end of the input or to a read error),
    every later [Next] returns an error and an empty record and leaves the
    reader and the offset as they are, whatever the file holds by then. *)
Theorem ScanReader_never_resumes (w : World) (line line' : ScanReader.LineReader)
    (off off' : Z) (msg : string) (err : error) :
  ScanReader.Next w line off = Returns (msg, Some err, line', off') ->
  err <> bufio_ErrTooLong ->
  forall (w2 : World) (off2 : Z),
    exists err2,
      ScanReader.Next w2 line' off2
        = Returns (EmptyString, Some err2, line', off2).
Proof.
  unfold ScanReader.Next at 1.
  destruct (ScanReader.closed line =? 1) eqn:Ec.
  { intros [= _ _ <- _] _ w2 off2. unfold ScanReader.Next. rewrite Ec. eauto. }
  destruct (ScanReader.reader line) as [s|]; [|discriminate].
  destruct (Scan _ _ s) as [[|] s'] eqn:Es; [discriminate|].
  intros Hnext Hne.
  assert (Hline : line' = ScanReader.set_reader line s' /\
                  err = match Err s' with Some e => e | None => io_EOF end
                  \/ line' = ScanReader.set_reader line s' /\
                     is_EOF match Err s' with Some e => e | None => io_EOF end
                     = true).
  { destruct (is_EOF _) eqn:Ee.
    - right. split; [|reflexivity].
      destruct (readOpen _ _) as [e|f].
      + destruct (is_ErrNotExist e); now injection Hnext as _ _ <- _.
      + destruct (isRemoved _ _); [now injection Hnext as _ _ <- _|].
        destruct (negb _); now injection Hnext as _ _ <- _.
    - left. now injection Hnext as _ <- <- _. }
  assert (Hs' : exists e, s' = {| sc_start := O; sc_end := O;
                                  sc_err := Some e;
                                  sc_token := EmptyString |}).
  { destruct (Scan_false _ _ _ _ Es) as [H|H]; [exact H|].
    rewrite H in Hline. destruct Hline as [[_ He]|[_ He]];
      [congruence|discriminate]. }
  destruct Hs' as [e ->].
  assert (Hl : line' = ScanReader.set_reader line
                         {| sc_start := O; sc_end := O; sc_err := Some e;
                            sc_token := EmptyString |})
    by (destruct Hline as [[H _]|[H _]]; exact H).
  subst line'. clear Hnext Hline.
  intros w2 off2. unfold ScanReader.Next.
  cbn [ScanReader.closed ScanReader.reader ScanReader.set_reader].
  rewrite Ec. unfold Scan. cbn [sc_err].
  rewrite Scan_held_empty by reflexivity.
  cbv beta iota zeta.
  change (ScanReader.set_reader (ScanReader.set_reader line ?a) ?b)
    with (ScanReader.set_reader line b).
  destruct (is_EOF _); [|eauto].
  destruct (readOpen _ _) as [e'|f].
  - destruct (is_ErrNotExist e'); eauto.
  - destruct (isRemoved _ _); [eauto|]. destruct (negb _); eauto.
Qed.

(** The file has grown by a line after the reader saw its end: the line
    is not delivered. *)
Lemma ScanReader_never_resumes_witness :
  let w := a_log_world EmptyString (inr 1%nat) 1 in
  let w2 := a_log_world ("new" ++ nl) (inr 1%nat) 1 in
  exists line line',
    ScanReader.NewLineReader w "a.log" 0 = inr line /\
    ScanReader.Next w line 0 = Returns (EmptyString, Some io_EOF, line', 0) /\
    io_EOF <> bufio_ErrTooLong /\
    exists err2,
      ScanReader.Next w2 line' 0 = Returns (EmptyString, Some err2, line', 0).
Proof.
  intros w w2. do 2 eexists. split; [run_code|].
  match goal with |- ?P /\ _ => assert (H : P) by run_code end.
  split; [exact H|]. split; [discriminate|].
  exact (ScanReader_never_resumes w _ _ 0 0 EmptyString io_EOF H
           ltac:(discriminate) w2 0).
Defined.

(** ** File identities *)

Lemma digits_have_no_dash (d : Decimal.uint) :
  IndexByte (NilEmpty.string_of_uint d) "-"%char = None.
Proof. induction d; simpl; try rewrite IHd; reflexivity. Qed.

Lemma digits_inj (a b : Z) :
  0 <= a -> 0 <= b ->
  NilEmpty.string_of_uint (N.to_uint (Z.to_N a))
    = NilEmpty.string_of_uint (N.to_uint (Z.to_N b)) ->
  a = b.
Proof.
  intros Ha Hb H.
  assert (E : Some (N.to_uint (Z.to_N a)) = Some (N.to_uint (Z.to_N b))).
  { rewrite <- !NilEmpty.usu. now rewrite H. }
  injection E as E. apply DecimalN.Unsigned.to_uint_inj in E.
  apply (f_equal Z.of_N) in E. now rewrite !Z2N.id in E.
Qed.

Lemma split_at_dash (a b a' b' : string) (c : ascii) :
  IndexByte a c = None -> IndexByte a' c = None ->
  (a ++ String c b = a' ++ String c b')%string ->
  a = a' /\ b = b'.
Proof.
  intros Ha Ha' H.
  pose proof (IndexByte_app a b c Ha) as H1.
  pose proof (IndexByte_app a' b' c Ha') as H2.
  rewrite H in H1. rewrite H1 in H2. injection H2 as Hl.
  assert (Ea : a = a').
  { rewrite <- (str_take_app a (String c b)), H, Hl. apply str_take_app. }
  split; [exact Ea|]. subst a'.
  pose proof (f_equal (str_drop (String.length a)) H) as Hd.
  rewrite !str_drop_app in Hd. now injection Hd.
Qed.

Lemma StateOS_String_shape (fs : StateOS) :
  StateOS_String fs
  = (NilEmpty.string_of_uint (N.to_uint (Z.to_N (Inode fs)))
     ++ String "-"%char
          (NilEmpty.string_of_uint (N.to_uint (Z.to_N (Device fs)))))%string.
Proof.
  unfold StateOS_String, AppendUint. simpl append at 3.
  now rewrite str_app_assoc.
Qed.

(** X8. The identity string names the file state: for inode and device
    numbers that are unsigned, two states have the same [String()] exactly
    when [isSame] holds of them, that is when they are equal. *)
Theorem StateOS_String_names_the_state (a b : StateOS) :
  0 <= Inode a -> 0 <= Device a -> 0 <= Inode b -> 0 <= Device b ->
  (StateOS_String a = StateOS_String b <-> StateOS_isSame a b = true) /\
  (StateOS_isSame a b = true <-> a = b).
Proof.
  intros Hia Hda Hib Hdb.
  assert (Hsame : StateOS_isSame a b = true <-> a = b).
  { unfold StateOS_isSame. rewrite andb_true_iff, !Z.eqb_eq.
    destruct a, b; simpl. split; [intros [-> ->]; reflexivity|].
    intros [= -> ->]. auto. }
  split; [|exact Hsame]. rewrite Hsame. split; [|now intros ->].
  rewrite !StateOS_String_shape. intros H.
  apply split_at_dash in H; try apply digits_have_no_dash.
  destruct H as [Hi Hd].
  apply digits_inj in Hi; [|assumption..].
  apply digits_inj in Hd; [|assumption..].
  destruct a, b; simpl in *. now subst.
Qed.

Lemma StateOS_String_names_the_state_witness :
  let a := GetOSState a_log in
  let b := GetOSState b_log in
  StateOS_String a = "8-64"%string /\
  StateOS_String b = "9-64"%string /\
  StateOS_isSame a b = false /\
  (StateOS_String a = StateOS_String b <-> StateOS_isSame a b = true).
Proof.
  intros a b. split; [reflexivity|]. split; [reflexivity|].
  split; [reflexivity|].
  apply (StateOS_String_names_the_state a b); simpl; lia.
Defined.

(** X9. [isSameFile] holds exactly when the status of both handles can
    be read and the two file states are the same: a handle whose status
    cannot be read (a closed one, for instance) is the same file as no
    handle, itself included, and counts as removed. *)
Theorem isSameFile_is_isSame (w : World) (a b : File) :
  (isSameFile w a b = true <->
   exists sa sb,
     File_Stat w a = inr sa /\ File_Stat w b = inr sb /\
     StateOS_isSame (GetOSState sa) (GetOSState sb) = true) /\
  isSameFile w a b = isSameFile w b a /\
  (forall err, File_Stat w a = inl err ->
     isSameFile w a a = false /\ isSameFile w a b = false /\
     isRemoved w a = true) /\
  (fd_closed a = true -> isRemoved w a = true /\ isSameFile w a a = false).
Proof.
  unfold isSameFile, isRemoved, os_SameFile, StateOS_isSame, GetOSState.
  split; [|split; [|split]].
  - destruct (File_Stat w a) as [ea|sa]; destruct (File_Stat w b) as [eb|sb];
      simpl.
    + split; [discriminate|]. intros (x & y & H & _). discriminate.
    + split; [discriminate|]. intros (x & y & H & _). discriminate.
    + split; [discriminate|]. intros (x & y & _ & H & _). discriminate.
    + rewrite Bool.andb_comm. split.
      * intros H. exists sa, sb. auto.
      * intros (x & y & [= <-] & [= <-] & H). exact H.
  - destruct (File_Stat w a) as [ea|sa]; destruct (File_Stat w b) as [eb|sb];
      simpl; try reflexivity.
    rewrite (Z.eqb_sym (Dev _)), (Z.eqb_sym (Ino _)). reflexivity.
  - intros err H. rewrite H. simpl. auto.
  - intros H. unfold File_Stat. rewrite H. simpl. auto.
Qed.

Lemma isSameFile_is_isSame_witness :
  exists line,
    ScanReader.NewLineReader test_world "./test_linereader_file.log" 0
      = inr line /\
    let closed_handle := ScanReader.curFile (snd (ScanReader.Close line)) in
    fd_closed closed_handle = true /\
    isRemoved test_world closed_handle = true /\
    isSameFile test_world closed_handle closed_handle = false.
Proof.
  eexists. split; [reflexivity|]. intros h. split; [reflexivity|].
  exact (proj2 (proj2 (proj2 (isSameFile_is_isSame test_world h h)))
           eq_refl).
Defined.

(** ** Resuming and long lines *)




(** X11. A line that does not fit the buffer is not delivered.  With the
    reader built on [ReadSlice], when the next 4096 bytes hold no newline,
    [Next] returns [ErrBufferFull] with an empty record and the offset
    unchanged, and those 4096 bytes are gone from the buffered reader.
    With the reader built on [bufio.Scanner], when the next 65536 bytes
    hold no newline, [Next] returns [ErrTooLong] with an empty record and
    the offset unchanged.  Neither call looks at the file system. *)
Theorem long_line_is_an_error (w : World) (off : Z) :
  (forall (line : SliceReader.LineReader) (b : bufio_Reader),
     SliceReader.closed line <> 1 ->
     SliceReader.reader line = Some b ->
     let rest := str_drop (rd_off b)
                   (File_bytes w (SliceReader.curFile line)) in
     IndexByte (str_take defaultBufSize rest) delimLabel = None ->
     (defaultBufSize <= String.length rest)%nat ->
     SliceReader.Next w line off
       = Returns (EmptyString, Some bufio_ErrBufferFull,
                  SliceReader.set_reader line
                    {| rd_off := rd_off b + defaultBufSize |}, off)) /\
  (forall (line : ScanReader.LineReader) (s : bufio_Scanner),
     ScanReader.closed line <> 1 ->
     ScanReader.reader line = Some s ->
     sc_err s = None ->
     let rest := str_drop (sc_start s)
                   (File_bytes w (ScanReader.curFile line)) in
     IndexByte (str_take MaxScanTokenSize rest) delimLabel = None ->
     (MaxScanTokenSize <= String.length rest)%nat ->
     ScanReader.Next w line off
       = Returns (EmptyString, Some bufio_ErrTooLong,
                  ScanReader.set_reader line
                    {| sc_start := sc_start s;
                       sc_end := sc_start s + MaxScanTokenSize;
                       sc_err := Some bufio_ErrTooLong;
                       sc_token := EmptyString |}, off)).
Proof.
  split.
  - intros line b Hc Hr rest Hno Hlen. unfold SliceReader.Next.
    destruct (SliceReader.closed line =? 1) eqn:E; [lia|].
    rewrite Hr. unfold ReadSlice. fold rest. rewrite Hno.
    apply Nat.leb_le in Hlen. rewrite Hlen. reflexivity.
  - intros line s Hc Hr He rest Hno Hlen. unfold ScanReader.Next.
    destruct (ScanReader.closed line =? 1) eqn:E; [lia|].
    rewrite Hr. unfold Scan. rewrite He. fold rest.
    unfold ScanLines. cbn [andb]. rewrite Hno.
    apply Nat.leb_le in Hlen. rewrite Hlen. reflexivity.
Qed.

Lemma long_line_is_an_error_witness :
  let w := a_log_world (str_repeat "x" 4096 ++ nl) (inr 1%nat) 1 in
  exists line line',
    SliceReader.NewLineReader w "a.log" 0 = inr line /\
    SliceReader.Next w line 0
      = Returns (EmptyString, Some bufio_ErrBufferFull, line', 0) /\
    SliceReader.reader line' = Some {| rd_off := 4096 |}.
Proof.
  intros w. eexists. eexists. split; [reflexivity|].
  split.
  - apply (proj1 (long_line_is_an_error w 0) _ {| rd_off := 0 |}).
    + discriminate.
    + reflexivity.
    + vm_compute. reflexivity.
    + apply Nat.leb_le. vm_compute. reflexivity.
  - reflexivity.
Defined.

(** ** Starting the harvester *)

(** X12. [NewHarvester] resumes nothing.  Whatever the checkpoint file
    holds and whatever the directory looks like, the harvester it returns
    has no current reader, an empty checkpoint, no sinks and no pending
    files; for a checkpoint file that holds a valid document it returns
    [InvalidUnmarshalError] instead.  The outcome depends on the
    checkpoint file only, not on any log file. *)
Theorem NewHarvester_resumes_nothing (lib : Lib) (w : World) (d : MetaDisk)
    (c : Harvester.Config) :
  (forall w', Harvester.NewHarvester lib w' d c
              = Harvester.NewHarvester lib w d c) /\
  (forall beater d',
     Harvester.NewHarvester lib w d c = (inr beater, d') ->
     beater = Harvester.new_struct c) /\
  (forall data,
     md_read d = inr data -> json_Valid lib data = true ->
     Harvester.NewHarvester lib w d c = (inl json_InvalidUnmarshalError, d)).
Proof.
  assert (Hinit : forall w0 d0,
            Harvester.Init_reader w0 d0 (Harvester.new_struct c)
            = (None, Harvester.new_struct c, d0)) by reflexivity.
  unfold Harvester.NewHarvester, Harvester.Init. split; [|split].
  - intros w'. destruct (md_read d) as [e|data].
    + destruct (negb _); [reflexivity|].
      destruct (md_create d); [reflexivity|]. now rewrite !Hinit.
    + destruct (negb _); [reflexivity|].
      unfold json_Unmarshal. destruct (json_Valid lib data); reflexivity.
  - intros beater d'. destruct (md_read d) as [e|data].
    + destruct (negb _); [discriminate|].
      destruct (md_create d); [discriminate|]. rewrite Hinit.
      now intros [= <- _].
    + destruct (negb _); [now intros [= <- _]|].
      unfold json_Unmarshal. destruct (json_Valid lib data); discriminate.
  - intros data Hd Hv. rewrite Hd, Hv. unfold json_Unmarshal.
    now rewrite Hv.
Qed.

Lemma NewHarvester_resumes_nothing_witness :
  let lib :=
    {| json_Marshal := fun _ => "{}"%string;
       json_Valid := fun data => String.eqb data "{}";
       json_decode := fun _ m => inr m; filepath_Dir := fun p => p;
       filepath_Base := fun p => p; regexp_Compile := fun _ => None;
       sort_Slice := insertion_sort |} in
  let d := {| md_read := inr "{}"%string; md_create := None;
              md_write := None |} in
  let c := {| Harvester.Path := "a.log"; Harvester.MetaPath := "meta.json" |} in
  md_read d = inr "{}"%string /\
  json_Valid lib "{}" = true /\
  Harvester.NewHarvester lib test_world d c
    = (inl json_InvalidUnmarshalError, d).
Proof.
  intros lib d c. split; [reflexivity|]. split; [reflexivity|].
  exact (proj2 (proj2 (NewHarvester_resumes_nothing lib test_world d c))
           "{}"%string eq_refl eq_refl).
Defined.

(** X13. [Init] on a harvester that carries a checkpoint, the checkpoint
    file being absent (it is created empty): when the current file of the
    checkpoint opens, a reader on it becomes current; when it does not
    exist, the checkpoint is reset to [Metadata{}] and [Init] succeeds
    without a reader; any other error of the open is returned and the
    harvester is left as it was. *)
Theorem Init_resumes_or_resets (lib : Lib) (w : World) (d : MetaDisk)
    (beater : Harvester.harvester) :
  md_read d = inl ENOENT ->
  md_create d = None ->
  CurFile (Harvester.meta beater) <> EmptyString ->
  let name := CurFile (Harvester.meta beater) in
  let created := put_doc d EmptyString in
  match w_open w name with
  | inr k =>
      exists r,
        ScanReader.NewLineReader w name (CurOffset (Harvester.meta beater))
          = inr r /\
        Harvester.Init lib w d beater
          = (None, Harvester.set_curReader beater (Some r), created)
  | inl ENOENT =>
      Harvester.Init lib w d beater
        = (None, Harvester.set_meta beater Metadata_zero, created)
  | inl e =>
      Harvester.Init lib w d beater = (Some (PathError e), beater, created)
  end.
Proof.
  intros Hread Hcreate Hcur name created.
  unfold Harvester.Init. rewrite Hread, Hcreate. cbn [is_ErrNotExist negb].
  unfold Harvester.Init_reader, Harvester.initReaderFromMetadata.
  apply String.eqb_neq in Hcur. rewrite Hcur. cbn [negb]. fold name.
  unfold ScanReader.NewLineReader, readOpen, os_OpenFile.
  destruct (w_open w name) as [e|k].
  - destruct e; reflexivity.
  - eexists. split; reflexivity.
Qed.

Lemma Init_resumes_or_resets_witness :
  let lib :=
    {| json_Marshal := fun _ => "{}"%string;
       json_Valid := fun data => String.eqb data "{}";
       json_decode := fun _ m => inr m; filepath_Dir := fun p => p;
       filepath_Base := fun p => p; regexp_Compile := fun _ => None;
       sort_Slice := insertion_sort |} in
  let d := {| md_read := inl ENOENT; md_create := None; md_write := None |} in
  let gone := a_log_world EmptyString (inl ENOENT) 0 in
  md_read d = inl ENOENT /\
  CurFile (Harvester.meta at_end_of_a_log) <> EmptyString /\
  Harvester.Init lib gone d at_end_of_a_log
    = (None, Harvester.set_meta at_end_of_a_log Metadata_zero,
       put_doc d EmptyString).
Proof.
  intros lib d gone. split; [reflexivity|]. split; [discriminate|].
  exact (Init_resumes_or_resets lib gone d at_end_of_a_log eq_refl eq_refl
           ltac:(discriminate)).
Defined.

(** ** The reader loop *)

Lemma set_CurOffset_same (m : Metadata) : Harvester.set_CurOffset m (CurOffset m) = m.
Proof. now destruct m. Qed.

Lemma initReaderFromWait_frame w published beater err beater' :
  Harvester.initReaderFromWait w published beater = Returns (err, beater') ->
  Harvester.sinks beater' = Harvester.sinks beater /\
  Harvester.cfg beater' = Harvester.cfg beater /\
  Harvester.logged beater' = Harvester.logged beater.
Proof.
  unfold Harvester.initReaderFromWait.
  destruct (if (List.length (Harvester.waitDealFiles beater) =? 0)%nat
            then published else Some (Harvester.waitDealFiles beater));
    [|discriminate].
  destruct (rev l); [discriminate|]. cbv beta iota zeta.
  destruct (ScanReader.NewLineReader _ _ _); intros [= _ <-]; auto.
Qed.

Lemma switchNextFile_frame w published beater err beater' :
  Harvester.switchNextFile w published beater = Returns (err, beater') ->
  Harvester.sinks beater' = Harvester.sinks beater /\
  Harvester.cfg beater' = Harvester.cfg beater /\
  Harvester.logged beater' = Harvester.logged beater.
Proof.
  unfold Harvester.switchNextFile. intros H.
  apply initReaderFromWait_frame in H. destruct H as (H1 & H2 & H3).
  rewrite H1, H2, H3.
  destruct (Harvester.curReader beater);
    destruct (Harvester.match_pos _ _); auto.
Qed.

Lemma fan_out_nothing (l : list Sink) :
  map (fun k => {| received := received k ++ [] |}) l = l.
Proof.
  induction l as [|[r] t IH]; simpl; [reflexivity|].
  now rewrite app_nil_r, IH.
Qed.

Lemma fan_out_more (msg : string) (more : list string) (l : list Sink) :
  map (fun k => {| received := received k ++ more |})
      (map (fun k => OnMessage k msg) l)
  = map (fun k => {| received := received k ++ msg :: more |}) l.
Proof.
  rewrite map_map. apply map_ext. intros [r]. unfold OnMessage. simpl.
  now rewrite <- app_assoc.
Qed.

(** X14. Every sink gets the same records.  When a pass of the reader
    loop returns, there is one list of records, none of them holding a
    delimiter, that has been appended to what each registered sink had
    received; the list of sinks is otherwise as it was (no sink is added,
    dropped or moved), and the configuration is untouched.  The order in
    which the sinks are called for one record is not part of the
    statement. *)
Theorem innerRun_fans_out (lib : Lib) (w : World)
    (published : option (list FileInfo)) (fuel : nat) :
  forall (beater beater' : Harvester.harvester) (d d' : MetaDisk),
    Harvester.innerRun fuel lib w published beater d
      = Some (Returns (beater', d')) ->
    exists delivered,
      Harvester.sinks beater'
        = map (fun k => {| received := received k ++ delivered |})
              (Harvester.sinks beater) /\
      Forall (fun msg => IndexByte msg delimLabel = None) delivered /\
      Harvester.cfg beater' = Harvester.cfg beater.
Proof.
  induction fuel as [|fuel IH]; intros beater beater' d d'; simpl;
    [discriminate|].
  destruct (Harvester.curReader beater) as [r|]; [|discriminate].
  destruct (ScanReader.Next w r (CurOffset (Harvester.meta beater)))
    as [[[[msg err] r1] off]| |] eqn:En; try discriminate.
  set (b1 := Harvester.set_meta (Harvester.set_curReader beater (Some r1))
               (Harvester.set_CurOffset (Harvester.meta beater) off)).
  assert (Hnothing : exists delivered,
            Harvester.sinks b1
              = map (fun k => {| received := received k ++ delivered |})
                    (Harvester.sinks beater) /\
            Forall (fun msg => IndexByte msg delimLabel = None) delivered /\
            Harvester.cfg b1 = Harvester.cfg beater).
  { exists []. simpl. now rewrite fan_out_nothing. }
  assert (Hswitch :
    match Harvester.switchNextFile w published b1 with
    | Returns (_, b2) => Harvester.innerRun fuel lib w published b2 d
    | Panics => Some Panics
    | Blocks => Some Blocks
    end = Some (Returns (beater', d')) ->
    exists delivered,
      Harvester.sinks beater'
        = map (fun k => {| received := received k ++ delivered |})
              (Harvester.sinks beater) /\
      Forall (fun msg => IndexByte msg delimLabel = None) delivered /\
      Harvester.cfg beater' = Harvester.cfg beater).
  { destruct (Harvester.switchNextFile w published b1)
      as [[e2 b2]| |] eqn:Es; try discriminate.
    destruct (switchNextFile_frame _ _ _ _ _ Es) as (Hs & Hc & _).
    intros H. apply IH in H. destruct H as (delivered & H1 & H2 & H3).
    exists delivered. rewrite H1, H3, Hs, Hc. auto. }
  destruct err as [e|].
  - destruct e; try exact Hswitch;
      intros [= <- _]; exact Hnothing.
  - intros H. apply IH in H. destruct H as (delivered & H1 & H2 & H3).
    exists (msg :: delivered). cbn [Harvester.sinks Harvester.set_sinks] in H1.
    rewrite H1, fan_out_more. split; [reflexivity|]. split; [|exact H3].
    constructor; [|exact H2].
    exact (ScanReader_Next_no_delimiter w _ _ msg _ _ En).
Qed.

Lemma innerRun_fans_out_witness :
  let lib :=
    {| json_Marshal := fun _ => "{}"%string;
       json_Valid := fun data => String.eqb data "{}";
       json_decode := fun _ m => inr m; filepath_Dir := fun p => p;
       filepath_Base := fun p => p; regexp_Compile := fun _ => None;
       sort_Slice := insertion_sort |} in
  let d := {| md_read := inr EmptyString; md_create := None;
              md_write := None |} in
  let two_sinks :=
    Harvester.RegisterSink
      (Harvester.RegisterSink at_end_of_a_log {| received := [] |})
      {| received := ["earlier"%string] |} in
  exists r beater' d',
    ScanReader.NewLineReader two_lines_world "a.log" 0 = inr r /\
    Harvester.innerRun 3 lib two_lines_world None
      (Harvester.set_curReader two_sinks (Some r)) d
      = Some (Returns (beater', d')) /\
    Harvester.sinks beater'
      = [ {| received := ["a"; "b"]%string |};
          {| received := ["earlier"; "a"; "b"]%string |} ] /\
    exists delivered,
      Harvester.sinks beater'
        = map (fun k => {| received := received k ++ delivered |})
              (Harvester.sinks two_sinks).
Proof.
  intros lib d two_sinks. do 3 eexists. split; [run_code|].
  match goal with |- ?P /\ _ => assert (H : P) by run_code end.
  split; [exact H|]. split; [reflexivity|].
  destruct (innerRun_fans_out _ _ _ _ _ _ _ _ H)
    as (delivered & Hs & _ & _).
  exists delivered. exact Hs.
Defined.

(** X16. After [Close], the reader loop delivers nothing: a pass hands
    [ErrorClosed] to [OnError] and returns, with the sinks, the
    checkpoint in memory and the checkpoint file as they were. *)
Theorem innerRun_after_Close (lib : Lib) (w : World)
    (published : option (list FileInfo)) (fuel : nat)
    (beater closed_beater : Harvester.harvester) (d : MetaDisk)
    (err : option error) :
  Harvester.Close beater = Returns (err, closed_beater) ->
  exists beater',
    Harvester.innerRun (S fuel) lib w published closed_beater d
      = Some (Returns (beater', d)) /\
    Harvester.logged beater' = (Harvester.logged beater ++ [ErrorClosed])%list /\
    Harvester.sinks beater' = Harvester.sinks beater /\
    Harvester.meta beater' = Harvester.meta beater /\
    Harvester.curReader beater' = Harvester.curReader closed_beater.
Proof.
  unfold Harvester.Close.
  destruct (Harvester.curReader beater) as [r|]; [|discriminate].
  assert (Hnext :
    ScanReader.Next w (snd (ScanReader.Close r))
      (CurOffset (Harvester.meta beater))
    = Returns (EmptyString, Some ErrorClosed, snd (ScanReader.Close r),
               CurOffset (Harvester.meta beater))).
  { unfold ScanReader.Close. now destruct (File_Close _). }
  destruct (ScanReader.Close r) as [e r1]. cbn [snd] in Hnext.
  intros [= _ <-]. eexists.
  cbn [Harvester.innerRun Harvester.curReader Harvester.set_curReader
       Harvester.meta].
  rewrite Hnext. split; [reflexivity|]. cbn.
  rewrite set_CurOffset_same. auto.
Qed.

Lemma innerRun_after_Close_witness :
  let lib :=
    {| json_Marshal := fun _ => "{}"%string;
       json_Valid := fun data => String.eqb data "{}";
       json_decode := fun _ m => inr m; filepath_Dir := fun p => p;
       filepath_Base := fun p => p; regexp_Compile := fun _ => None;
       sort_Slice := insertion_sort |} in
  let d := {| md_read := inr EmptyString; md_create := None;
              md_write := None |} in
  exists closed_beater beater',
    Harvester.Close at_end_of_a_log = Returns (None, closed_beater) /\
    Harvester.innerRun 1 lib two_logs_world None closed_beater d
      = Some (Returns (beater', d)) /\
    Harvester.logged beater' = [ErrorClosed].
Proof.
  intros lib d. eexists.
  assert (H : Harvester.Close at_end_of_a_log
              = Returns (None, _)) by reflexivity.
  destruct (innerRun_after_Close lib two_logs_world None 0 _ _ d _ H)
    as (beater' & H1 & H2 & _).
  exists beater'. split; [exact H|]. split; [exact H1|exact H2].
Defined.

Lemma ScanReader_Next_plain_EOF (w : World) (r : ScanReader.LineReader)
    (s : bufio_Scanner) (f : File) (off : Z) :
  ScanReader.closed r <> 1 ->
  ScanReader.reader r = Some s ->
  Scan (File_bytes w (ScanReader.curFile r))
       (File_end w (ScanReader.curFile r)) s
    = (false, {| sc_start := O; sc_end := O; sc_err := Some io_EOF;
                 sc_token := EmptyString |}) ->
  readOpen w (ScanReader.originName r) = inr f ->
  isRemoved w (ScanReader.curFile r) = false ->
  isSameFile w (ScanReader.curFile r) f = true ->
  ScanReader.Next w r off
    = Returns (EmptyString, Some io_EOF,
               ScanReader.set_reader r
                 {| sc_start := O; sc_end := O; sc_err := Some io_EOF;
                    sc_token := EmptyString |}, off).
Proof.
  intros Hc Hr Hscan Hopen Hrm Hsame. unfold ScanReader.Next.
  destruct (ScanReader.closed r =? 1) eqn:E; [lia|].
  rewrite Hr, Hscan. cbn [Err sc_err is_EOF]. cbv beta iota zeta.
  change (ScanReader.originName (ScanReader.set_reader r ?x))
    with (ScanReader.originName r).
  change (ScanReader.curFile (ScanReader.set_reader r ?x))
    with (ScanReader.curFile r).
  now rewrite Hopen, Hrm, Hsame.
Qed.



Lemma ScanReader_plain_EOF_state (w : World) (r0 r : ScanReader.LineReader)
    (off off' : Z) (msg : string) :
  ScanReader.Next w r0 off = Returns (msg, Some io_EOF, r, off') ->
  ScanReader.closed r <> 1 /\
  ScanReader.reader r
    = Some {| sc_start := O; sc_end := O; sc_err := Some io_EOF;
              sc_token := EmptyString |}.
Proof.
  unfold ScanReader.Next.
  destruct (ScanReader.closed r0 =? 1) eqn:Ec; [discriminate|].
  apply Z.eqb_neq in Ec.
  destruct (ScanReader.reader r0) as [s|]; [|discriminate].
  destruct (Scan _ _ s) as [[|] s'] eqn:Es; [discriminate|].
  destruct (Scan_false _ _ _ _ Es) as [[e ->]|Hlong].
  - assert (He : match Err {| sc_start := O; sc_end := O; sc_err := Some e;
                              sc_token := EmptyString |} with
                 | Some x => x
                 | None => io_EOF
                 end = e) by now destruct e.
    rewrite He. destruct (is_EOF e) eqn:Ee.
    + assert (e = io_EOF) by (destruct e; try discriminate; reflexivity).
      subst e.
      destruct (readOpen _ _) as [e'|f] eqn:Eo.
      * destruct (readOpen_error _ _ _ Eo) as [n ->].
        destruct (is_ErrNotExist _); discriminate.
      * destruct (isRemoved _ _); [discriminate|].
        destruct (negb _); [discriminate|].
        intros [= _ <- _]. split; [exact Ec|reflexivity].
    + intros [= _ -> _ _]. discriminate.
  - rewrite Hlong. cbn [is_EOF]. discriminate.
Qed.

(** X17. The reader loop does not follow a growing file.  Once [Next]
    has returned plain EOF on the current reader, every later pass of the
    loop returns at once, as long as the path still names the file that
    is held: the harvester and the checkpoint file are exactly as before,
    nothing is delivered, whatever bytes the file holds by then. *)
Theorem innerRun_after_EOF (lib : Lib) (w0 w : World)
    (published : option (list FileInfo)) (fuel : nat)
    (beater : Harvester.harvester) (d : MetaDisk)
    (r0 r : ScanReader.LineReader) (f : File) (off off' : Z) (msg : string) :
  ScanReader.Next w0 r0 off = Returns (msg, Some io_EOF, r, off') ->
  Harvester.curReader beater = Some r ->
  readOpen w (ScanReader.originName r) = inr f ->
  isRemoved w (ScanReader.curFile r) = false ->
  isSameFile w (ScanReader.curFile r) f = true ->
  Harvester.innerRun (S fuel) lib w published beater d
    = Some (Returns (beater, d)).
Proof.
  intros Hprev Hcur Hopen Hrm Hsame.
  destruct (ScanReader_plain_EOF_state _ _ _ _ _ _ Hprev) as [Hc Hr].
  assert (Hscan :
    Scan (File_bytes w (ScanReader.curFile r))
         (File_end w (ScanReader.curFile r))
         {| sc_start := O; sc_end := O; sc_err := Some io_EOF;
            sc_token := EmptyString |}
    = (false, {| sc_start := O; sc_end := O; sc_err := Some io_EOF;
                 sc_token := EmptyString |})).
  { unfold Scan. cbn [sc_err]. now apply Scan_held_empty. }
  pose proof (ScanReader_Next_plain_EOF w r _ f
                (CurOffset (Harvester.meta beater)) Hc Hr Hscan Hopen Hrm
                Hsame) as Hnext.
  cbn [Harvester.innerRun]. rewrite Hcur, Hnext. do 3 f_equal.
  rewrite set_CurOffset_same.
  assert (Hsame_r : ScanReader.set_reader r
                      {| sc_start := O; sc_end := O; sc_err := Some io_EOF;
                         sc_token := EmptyString |} = r).
  { destruct r; simpl in *. now rewrite Hr. }
  rewrite Hsame_r. destruct beater; simpl in *. now rewrite Hcur.
Qed.

(** A line is appended to "a.log" after the reader saw its end. *)
Lemma innerRun_after_EOF_witness :
  let lib :=
    {| json_Marshal := fun m => CurFile m;
       json_Valid := fun data => String.eqb data "{}";
       json_decode := fun _ m => inr m; filepath_Dir := fun p => p;
       filepath_Base := fun p => p; regexp_Compile := fun _ => None;
       sort_Slice := insertion_sort |} in
  let d := {| md_read := inr EmptyString; md_create := None;
              md_write := None |} in
  let w0 := a_log_world EmptyString (inr 1%nat) 1 in
  let w := a_log_world ("new" ++ nl) (inr 1%nat) 1 in
  exists r0 r,
    ScanReader.NewLineReader w0 "a.log" 0 = inr r0 /\
    ScanReader.Next w0 r0 0 = Returns (EmptyString, Some io_EOF, r, 0) /\
    let beater :=
      Harvester.RegisterSink
        (Harvester.set_curReader at_end_of_a_log (Some r))
        {| received := [] |} in
    Harvester.innerRun 1 lib w None beater d = Some (Returns (beater, d)).
Proof.
  intros lib d w0 w. do 2 eexists. split; [run_code|].
  match goal with |- ?P /\ _ => assert (H : P) by run_code end.
  split; [exact H|]. intros beater.
  exact (innerRun_after_EOF lib w0 w None 0 beater d _ _ _ 0 0 EmptyString
           H eq_refl eq_refl eq_refl eq_refl).
Defined.

(** ** Switching to another file *)

Lemma rev_last (A : Type) (front : list A) (last : A) :
  rev (front ++ [last]) = last :: rev front.
Proof. now rewrite rev_app_distr. Qed.

Lemma initReaderFromWait_last (w : World)
    (published : option (list FileInfo)) (beater : Harvester.harvester)
    (front : list FileInfo) (last : FileInfo) :
  Harvester.waitDealFiles beater = (front ++ [last])%list ->
  exists err beater',
    Harvester.initReaderFromWait w published beater
      = Returns (err, beater') /\
    Harvester.meta beater'
      = {| CurFile := Name last;
           CurFileINode := StateOS_String (GetOSState last);
           CurOffset := 0;
           PreFileINode := PreFileINode (Harvester.meta beater) |} /\
    Harvester.waitDealFiles beater' = (front ++ [last])%list /\
    match w_open w (Name last) with
    | inl e =>
        err = Some (PathError e) /\
        Harvester.curReader beater' = Harvester.curReader beater
    | inr k =>
        err = None /\
        Harvester.curReader beater'
          = Some {| ScanReader.closed := 0;
                    ScanReader.originName := Name last;
                    ScanReader.curFile :=
                      {| fd_obj := k; fd_name := Name last;
                         fd_flag := O_RDONLY; fd_pos := 0;
                         fd_closed := false |};
                    ScanReader.reader := Some ScanReader.NewScanner |}
    end.
Proof.
  intros Hwait. unfold Harvester.initReaderFromWait. rewrite Hwait.
  replace (List.length (front ++ [last]) =? 0)%nat with false
    by (rewrite List.length_app; simpl; symmetry; apply Nat.eqb_neq; lia).
  rewrite rev_last. cbv beta iota zeta.
  unfold ScanReader.NewLineReader, readOpen, os_OpenFile.
  cbn [Harvester.meta Harvester.set_meta CurOffset].
  destruct (w_open w (Name last)) as [e|k]; do 2 eexists;
    (split; [reflexivity|]); cbn; auto.
Qed.

(** X18. [initReaderFromWait] adopts the last entry of the pending list
    and leaves the list as it is.  The checkpoint is switched to that
    entry (its name, its identity string, offset 0; [PreFileINode] kept)
    before the file is opened: when the open fails, its error is returned
    with the checkpoint already switched and the current reader still the
    former one; when it succeeds, a new reader on the entry's name, at
    position 0, becomes current. *)
Theorem initReaderFromWait_adopts_last (w : World)
    (published : option (list FileInfo)) (beater : Harvester.harvester)
    (front : list FileInfo) (last : FileInfo) :
  Harvester.waitDealFiles beater = (front ++ [last])%list ->
  exists err beater',
    Harvester.initReaderFromWait w published beater
      = Returns (err, beater') /\
    Harvester.meta beater'
      = {| CurFile := Name last;
           CurFileINode := StateOS_String (GetOSState last);
           CurOffset := 0;
           PreFileINode := PreFileINode (Harvester.meta beater) |} /\
    Harvester.waitDealFiles beater' = (front ++ [last])%list /\
    match w_open w (Name last) with
    | inl e =>
        err = Some (PathError e) /\
        Harvester.curReader beater' = Harvester.curReader beater
    | inr k =>
        err = None /\
        Harvester.curReader beater'
          = Some {| ScanReader.closed := 0;
                    ScanReader.originName := Name last;
                    ScanReader.curFile :=
                      {| fd_obj := k; fd_name := Name last;
                         fd_flag := O_RDONLY; fd_pos := 0;
                         fd_closed := false |};
                    ScanReader.reader := Some ScanReader.NewScanner |}
    end.
Proof. apply initReaderFromWait_last. Qed.

Lemma initReaderFromWait_adopts_last_witness :
  let beater :=
    Harvester.set_waitDealFiles at_end_of_a_log [b_log; a_log; old_log] in
  Harvester.waitDealFiles beater = ([b_log; a_log] ++ [old_log])%list /\
  exists err beater',
    Harvester.initReaderFromWait two_logs_world None beater
      = Returns (err, beater') /\
    CurFile (Harvester.meta beater') = "a.log.1"%string /\
    err = Some (PathError ENOENT) /\
    Harvester.curReader beater' = Harvester.curReader beater.
Proof.
  intros beater. split; [reflexivity|].
  destruct (initReaderFromWait_adopts_last two_logs_world None beater
              [b_log; a_log] old_log eq_refl)
    as (err & beater' & H1 & H2 & _ & H4).
  exists err, beater'. split; [exact H1|]. split; [now rewrite H2|].
  exact H4.
Defined.

Lemma match_pos_middle (cur : string) (l1 l2 : list FileInfo) (e : FileInfo) :
  StateOS_String (GetOSState e) = cur ->
  (forall x, In x l1 -> StateOS_String (GetOSState x) <> cur) ->
  Harvester.match_pos cur (l1 ++ e :: l2) = Some (List.length l1).
Proof.
  intros He Hl1. induction l1 as [|x t IH]; simpl.
  - rewrite <- He, String.eqb_refl. reflexivity.
  - destruct (String.eqb cur (StateOS_String (GetOSState x))) eqn:E.
    + apply String.eqb_eq in E. exfalso. apply (Hl1 x); [now left|auto].
    + rewrite IH; [reflexivity|]. intros y Hy. apply Hl1. now right.
Qed.

(** X19. [switchNextFile] closes the current reader, takes the first
    entry with the identity of the current file out of the pending list,
    and adopts the last entry of what remains: the checkpoint names that
    entry, at offset 0, and the pending list is the former one without
    the retired entry. *)
Theorem switchNextFile_drops_retired (w : World)
    (published : option (list FileInfo)) (beater : Harvester.harvester)
    (l1 l2 front : list FileInfo) (retired last : FileInfo) :
  Harvester.waitDealFiles beater = (l1 ++ retired :: l2)%list ->
  StateOS_String (GetOSState retired)
    = CurFileINode (Harvester.meta beater) ->
  (forall x, In x l1 ->
     StateOS_String (GetOSState x) <> CurFileINode (Harvester.meta beater)) ->
  (l1 ++ l2 = front ++ [last])%list ->
  exists err beater',
    Harvester.switchNextFile w published beater = Returns (err, beater') /\
    Harvester.waitDealFiles beater' = (l1 ++ l2)%list /\
    CurFile (Harvester.meta beater') = Name last /\
    CurFileINode (Harvester.meta beater')
      = StateOS_String (GetOSState last) /\
    CurOffset (Harvester.meta beater') = 0 /\
    (forall k, w_open w (Name last) = inr k ->
       err = None /\
       exists r, Harvester.curReader beater' = Some r /\
                 ScanReader.originName r = Name last /\
                 ScanReader.closed r = 0) /\
    (forall e old, w_open w (Name last) = inl e ->
       Harvester.curReader beater = Some old ->
       err = Some (PathError e) /\
       Harvester.curReader beater' = Some (snd (ScanReader.Close old))).
Proof.
  intros Hwait Hid Hl1 Hrem. unfold Harvester.switchNextFile.
  set (b0 := match Harvester.curReader beater with
             | Some old =>
                 Harvester.set_curReader beater
                   (Some (snd (ScanReader.Close old)))
             | None => beater
             end).
  assert (Hw0 : Harvester.waitDealFiles b0 = (l1 ++ retired :: l2)%list)
    by (subst b0; destruct (Harvester.curReader beater); exact Hwait).
  assert (Hm0 : Harvester.meta b0 = Harvester.meta beater)
    by (subst b0; now destruct (Harvester.curReader beater)).
  rewrite Hm0, Hw0, (match_pos_middle _ _ _ _ Hid Hl1).
  rewrite firstn_app, Nat.sub_diag, firstn_all. simpl firstn.
  rewrite app_nil_r.
  replace (skipn (S (List.length l1)) (l1 ++ retired :: l2)) with l2
    by (rewrite skipn_app, skipn_all2 by lia;
        replace (S (List.length l1) - List.length l1)%nat with 1%nat by lia;
        reflexivity).
  destruct (initReaderFromWait_last w published
              (Harvester.set_waitDealFiles b0 (l1 ++ l2)) front last Hrem)
    as (err & beater' & Hrun & Hmeta & Hwait' & Hopen).
  exists err, beater'. split; [exact Hrun|].
  split; [now rewrite Hwait', Hrem|]. rewrite Hmeta. cbn.
  split; [reflexivity|]. split; [reflexivity|]. split; [reflexivity|].
  split.
  - intros k Hk. rewrite Hk in Hopen. destruct Hopen as [-> Hr].
    split; [reflexivity|]. eexists. split; [exact Hr|]. split; reflexivity.
  - intros e old He Hold. rewrite He in Hopen. destruct Hopen as [-> Hr].
    split; [reflexivity|]. rewrite Hr. subst b0. now rewrite Hold.
Qed.

Lemma switchNextFile_drops_retired_witness :
  let beater :=
    Harvester.set_waitDealFiles at_end_of_a_log [b_log; a_log] in
  Harvester.waitDealFiles beater = ([b_log] ++ a_log :: [])%list /\
  StateOS_String (GetOSState a_log) = CurFileINode (Harvester.meta beater) /\
  exists err beater',
    Harvester.switchNextFile two_logs_world None beater
      = Returns (err, beater') /\
    Harvester.waitDealFiles beater' = [b_log] /\
    CurFile (Harvester.meta beater') = "b.log"%string /\
    err = None.
Proof.
  intros beater. split; [reflexivity|]. split; [reflexivity|].
  destruct (switchNextFile_drops_retired two_logs_world None beater
              [b_log] [] [] a_log b_log eq_refl eq_refl)
    as (err & beater' & H1 & H2 & H3 & _ & _ & H6 & _).
  - intros x [<-|[]]. discriminate.
  - reflexivity.
  - exists err, beater'. split; [exact H1|]. split; [exact H2|].
    split; [exact H3|]. exact (proj1 (H6 2%nat eq_refl)).
Defined.

(** X20. When the pending list holds nothing but the retired file (or
    nothing at all), [switchNextFile] waits for the refresher: with no
    broadcast it does not return; after a broadcast it adopts the last
    entry of the list the refresher has published, and an empty published
    list makes it panic. *)
Theorem switchNextFile_waits (w : World) (beater : Harvester.harvester)
    (retired : FileInfo) :
  Harvester.waitDealFiles beater = [retired] ->
  StateOS_String (GetOSState retired)
    = CurFileINode (Harvester.meta beater) ->
  Harvester.switchNextFile w None beater = Blocks /\
  Harvester.switchNextFile w (Some []) beater = Panics /\
  (forall front last,
     exists err beater',
       Harvester.switchNextFile w (Some (front ++ [last])%list) beater
         = Returns (err, beater') /\
       CurFile (Harvester.meta beater') = Name last /\
       Harvester.waitDealFiles beater' = (front ++ [last])%list).
Proof.
  intros Hwait Hid. unfold Harvester.switchNextFile.
  set (b0 := match Harvester.curReader beater with
             | Some old =>
                 Harvester.set_curReader beater
                   (Some (snd (ScanReader.Close old)))
             | None => beater
             end).
  assert (Hw0 : Harvester.waitDealFiles b0 = [retired])
    by (subst b0; destruct (Harvester.curReader beater); exact Hwait).
  assert (Hm0 : Harvester.meta b0 = Harvester.meta beater)
    by (subst b0; now destruct (Harvester.curReader beater)).
  rewrite Hm0, Hw0.
  pose proof (match_pos_middle _ [] [] retired Hid) as Hpos.
  cbn [app List.length] in Hpos. rewrite Hpos by (intros x []).
  cbn [firstn skipn List.length app].
  unfold Harvester.initReaderFromWait.
  cbn [Harvester.waitDealFiles Harvester.set_waitDealFiles List.length
       Nat.eqb].
  split; [reflexivity|]. split; [reflexivity|].
  intros front last. rewrite rev_last. cbv beta iota zeta.
  destruct (ScanReader.NewLineReader _ _ _); do 2 eexists;
    (split; [reflexivity|]); cbn; auto.
Qed.

Lemma switchNextFile_waits_witness :
  let beater := Harvester.set_waitDealFiles at_end_of_a_log [a_log] in
  Harvester.waitDealFiles beater = [a_log] /\
  StateOS_String (GetOSState a_log) = CurFileINode (Harvester.meta beater) /\
  Harvester.switchNextFile two_logs_world None beater = Blocks.
Proof.
  intros beater. split; [reflexivity|]. split; [reflexivity|].
  exact (proj1 (switchNextFile_waits two_logs_world beater a_log
                  eq_refl eq_refl)).
Defined.

(** ** Scanning the directory *)

Lemma ignoreAlreadDeal_has_no_current
    (sort : (FileInfo -> FileInfo -> bool) -> list FileInfo -> list FileInfo)
    (beater : Harvester.harvester) (source : list FileInfo) (e : FileInfo) :
  In e (Harvester.ignoreAlreadDeal sort beater source) ->
  StateOS_String (GetOSState e) <> CurFileINode (Harvester.meta beater).
Proof.
  unfold Harvester.ignoreAlreadDeal.
  pose proof (match_pos_first (CurFileINode (Harvester.meta beater))
                (sort Harvester.After source)) as H.
  destruct (Harvester.match_pos _ _) as [i|].
  - destruct H as (item & rest & _ & _ & H). apply H.
  - rewrite firstn_all. apply H.
Qed.

Lemma setWaitDealFiles_inv (lib : Lib) (scans : list World)
    (beater beater' : Harvester.harvester) (err : option error) :
  Harvester.setWaitDealFiles lib scans beater = Some (err, beater') ->
  exists w,
    In w scans /\
    match err with
    | Some e =>
        Harvester.loadCurFiles lib w beater = inl e /\ beater' = beater
    | None =>
        exists candidates,
          Harvester.loadCurFiles lib w beater = inr candidates /\
          Harvester.ignoreAlreadDeal (sort_Slice lib) beater candidates
            <> [] /\
          beater' = Harvester.set_waitDealFiles beater
                      (Harvester.ignoreAlreadDeal (sort_Slice lib) beater
                         candidates)
    end.
Proof.
  induction scans as [|w later IH]; simpl; [discriminate|].
  destruct (Harvester.loadCurFiles lib w beater) as [e|candidates] eqn:El.
  - intros [= <- <-]. exists w. auto.
  - destruct (List.length _ =? 0)%nat eqn:En.
    + intros H. destruct (IH H) as (w' & Hin & Hw'). exists w'. auto.
    + intros [= <- <-]. exists w. split; [now left|].
      exists candidates. split; [exact El|]. split; [|reflexivity].
      apply Nat.eqb_neq in En. intros Hnil. now rewrite Hnil in En.
Qed.

(** X21. What the refresher publishes.  When [setWaitDealFiles] returns
    without error, the pending list it has stored is not empty and holds
    no entry with the identity string of the current file; checkpoint,
    current reader and sinks are untouched.  When it returns an error (the
    directory cannot be read, or the base name is no regular expression),
    the harvester is as it was. *)
Theorem setWaitDealFiles_publishes (lib : Lib) (scans : list World)
    (beater beater' : Harvester.harvester) (err : option error) :
  Harvester.setWaitDealFiles lib scans beater = Some (err, beater') ->
  match err with
  | Some e => beater' = beater /\ (e = regexp_Error \/ exists n, e = PathError n)
  | None =>
      Harvester.waitDealFiles beater' <> [] /\
      (forall e, In e (Harvester.waitDealFiles beater') ->
         StateOS_String (GetOSState e)
         <> CurFileINode (Harvester.meta beater)) /\
      Harvester.meta beater' = Harvester.meta beater /\
      Harvester.curReader beater' = Harvester.curReader beater /\
      Harvester.sinks beater' = Harvester.sinks beater
  end.
Proof.
  intros H. destruct (setWaitDealFiles_inv _ _ _ _ _ H) as (w & _ & Hw).
  destruct err as [e|].
  - destruct Hw as [Hl ->]. split; [reflexivity|].
    unfold Harvester.loadCurFiles in Hl.
    destruct (w_readdir w _) as [n|fList].
    + injection Hl as <-. right. now exists n.
    + destruct (regexp_Compile lib _); [discriminate|].
      injection Hl as <-. now left.
  - destruct Hw as (candidates & _ & Hne & ->).
    cbn [Harvester.waitDealFiles Harvester.set_waitDealFiles Harvester.meta
         Harvester.curReader Harvester.sinks].
    split; [exact Hne|]. split; [|auto].
    intros e. apply ignoreAlreadDeal_has_no_current.
Qed.

Lemma In_firstn_any (A : Type) (n : nat) (l : list A) (x : A) :
  In x (firstn n l) -> In x l.
Proof.
  revert l. induction n as [|n IH]; intros [|a l]; simpl; try tauto.
  intros [->|H]; [now left|right; now apply IH].
Qed.

Lemma StronglySorted_firstn (A : Type) (R : A -> A -> Prop) (n : nat)
    (l : list A) :
  StronglySorted R l -> StronglySorted R (firstn n l).
Proof.
  revert l. induction n as [|n IH]; intros l H; [constructor|].
  destruct l as [|a l]; [constructor|]. simpl.
  inversion H as [|? ? Hl Ha]; subst. constructor; [now apply IH|].
  rewrite Forall_forall in *. intros x Hx. apply Ha.
  eapply In_firstn_any; eauto.
Qed.

Lemma StronglySorted_app_inv (A : Type) (R : A -> A -> Prop)
    (l1 l2 : list A) :
  StronglySorted R (l1 ++ l2)%list ->
  forall a b, In a l1 -> In b l2 -> R a b.
Proof.
  induction l1 as [|x l1 IH]; simpl; intros H a b Ha Hb; [destruct Ha|].
  inversion H as [|? ? Hl Hx]; subst.
  destruct Ha as [<-|Ha]; [|now apply IH].
  rewrite Forall_forall in Hx. apply Hx, in_or_app. now right.
Qed.

Lemma ignoreAlreadDeal_newer
    (sort : (FileInfo -> FileInfo -> bool) -> list FileInfo -> list FileInfo)
    (beater : Harvester.harvester) (source : list FileInfo) :
  sort_Slice_ok sort Harvester.After source ->
  let cur := CurFileINode (Harvester.meta beater) in
  let result := Harvester.ignoreAlreadDeal sort beater source in
  (forall e, In e result -> In e source) /\
  StronglySorted (fun a b => ModTime b <= ModTime a) result /\
  (forall c e, In c source -> StateOS_String (GetOSState c) = cur ->
     In e result -> ModTime c <= ModTime e) /\
  ((forall c, In c source -> StateOS_String (GetOSState c) <> cur) ->
   Permutation source result).
Proof.
  intros [Hperm Hsorted] cur result. subst result.
  unfold Harvester.ignoreAlreadDeal. fold cur.
  apply sorted_newest_first in Hsorted.
  pose proof (match_pos_first cur (sort Harvester.After source)) as Hpos.
  destruct (Harvester.match_pos cur (sort Harvester.After source)) as [i|].
  - destruct Hpos as (item & rest & H1 & H2 & H3).
    split; [|split; [|split]].
    + intros e He. apply (Permutation_in _ (Permutation_sym Hperm)).
      now apply In_firstn_any in He.
    + now apply StronglySorted_firstn.
    + intros c e Hc Hid He.
      apply (Permutation_in _ Hperm) in Hc. rewrite H1 in Hc, Hsorted.
      apply in_app_or in Hc. destruct Hc as [Hc|Hc].
      * now elim (H3 c Hc).
      * exact (StronglySorted_app_inv _ _ _ _ Hsorted e c He Hc).
    + intros Hnone. exfalso. apply (Hnone item); [|exact H2].
      apply (Permutation_in _ (Permutation_sym Hperm)).
      rewrite H1. apply in_or_app. right. now left.
  - rewrite firstn_all. split; [|split; [|split]].
    + intros e. apply (Permutation_in _ (Permutation_sym Hperm)).
    + exact Hsorted.
    + intros c e Hc Hid _. apply (Permutation_in _ Hperm) in Hc.
      now elim (Hpos c Hc).
    + intros _. exact Hperm.
Qed.

(** X22. Which files the refresher offers.  Given what [sort.Slice]
    promises, the list [setWaitDealFiles] has stored comes from one
    listing of the parent directory: every entry is in that listing and
    its name matches the expression compiled from the base name of the
    configured path; the entries are ordered newest first; none was
    modified before a matching file of the listing that has the identity
    of the current file; and when no matching file of the listing has
    that identity, every matching file is offered. *)
Theorem setWaitDealFiles_offers_newer_files (lib : Lib) (scans : list World)
    (beater beater' : Harvester.harvester) :
  (forall l, sort_Slice_ok (sort_Slice lib) Harvester.After l) ->
  Harvester.setWaitDealFiles lib scans beater = Some (None, beater') ->
  let cur := CurFileINode (Harvester.meta beater) in
  let path := Harvester.Path (Harvester.cfg beater) in
  exists w fList regx,
    In w scans /\
    w_readdir w (filepath_Dir lib path) = inr fList /\
    regexp_Compile lib (filepath_Base lib path) = Some regx /\
    (forall e, In e (Harvester.waitDealFiles beater') ->
       In e fList /\ regx (Name e) = true) /\
    StronglySorted (fun a b => ModTime b <= ModTime a)
      (Harvester.waitDealFiles beater') /\
    (forall c e, In c fList -> regx (Name c) = true ->
       StateOS_String (GetOSState c) = cur ->
       In e (Harvester.waitDealFiles beater') -> ModTime c <= ModTime e) /\
    ((forall c, In c fList -> regx (Name c) = true ->
        StateOS_String (GetOSState c) <> cur) ->
     Permutation (filter (fun item => regx (Name item)) fList)
       (Harvester.waitDealFiles beater')).
Proof.
  intros Hsort H cur path.
  destruct (setWaitDealFiles_inv _ _ _ _ _ H)
    as (w & Hin & candidates & Hl & _ & ->).
  unfold Harvester.loadCurFiles in Hl. fold path in Hl.
  destruct (w_readdir w (filepath_Dir lib path)) as [n|fList] eqn:Ed;
    [discriminate|].
  destruct (regexp_Compile lib (filepath_Base lib path)) as [regx|] eqn:Er;
    [|discriminate].
  injection Hl as <-.
  exists w, fList, regx.
  do 3 (split; [assumption || reflexivity|]).
  cbn [Harvester.waitDealFiles Harvester.set_waitDealFiles].
  destruct (ignoreAlreadDeal_newer (sort_Slice lib) beater
              (filter (fun item => regx (Name item)) fList) (Hsort _))
    as (H1 & H2 & H3 & H4).
  split; [|split; [exact H2|split]].
  - intros e He. apply H1, filter_In in He. exact He.
  - intros c e Hc Hm Hid He. apply (H3 c e); [|exact Hid|exact He].
    apply filter_In. now split.
  - intros Hnone. apply H4. intros c Hc. apply filter_In in Hc.
    now apply Hnone.
Qed.

Lemma setWaitDealFiles_publishes_witness :
  let scans := [listing [old_log; a_log];
                listing [old_log; rotated_log; b_log; fresh_log]] in
  let beater' := Harvester.set_waitDealFiles at_end_of_a_log [fresh_log] in
  Harvester.setWaitDealFiles scan_lib scans at_end_of_a_log
    = Some (None, beater') /\
  Harvester.waitDealFiles beater' <> [] /\
  (forall e, In e (Harvester.waitDealFiles beater') ->
     StateOS_String (GetOSState e) <> "8-64"%string).
Proof.
  intros scans beater'.
  assert (H : Harvester.setWaitDealFiles scan_lib scans at_end_of_a_log
              = Some (None, beater')) by run_code.
  split; [exact H|].
  destruct (setWaitDealFiles_publishes _ _ _ _ _ H) as (H1 & H2 & _).
  split; [exact H1|exact H2].
Defined.

Lemma setWaitDealFiles_offers_newer_files_witness :
  let scans := [listing [old_log; a_log];
                listing [old_log; rotated_log; b_log; fresh_log]] in
  let beater' := Harvester.set_waitDealFiles at_end_of_a_log [fresh_log] in
  (forall l, sort_Slice_ok (sort_Slice scan_lib) Harvester.After l) /\
  Harvester.setWaitDealFiles scan_lib scans at_end_of_a_log
    = Some (None, beater') /\
  exists w fList regx,
    In w scans /\
    w_readdir w "." = inr fList /\
    (forall e, In e (Harvester.waitDealFiles beater') ->
       In e fList /\ regx (Name e) = true) /\
    (forall c e, In c fList -> regx (Name c) = true ->
       StateOS_String (GetOSState c) = "8-64"%string ->
       In e (Harvester.waitDealFiles beater') -> ModTime c <= ModTime e).
Proof.
  intros scans beater'.
  assert (H1 : forall l, sort_Slice_ok (sort_Slice scan_lib)
                           Harvester.After l)
    by (intros l; apply insertion_sort_ok).
  assert (H2 : Harvester.setWaitDealFiles scan_lib scans at_end_of_a_log
               = Some (None, beater')) by run_code.
  split; [exact H1|]. split; [exact H2|].
  destruct (setWaitDealFiles_offers_newer_files scan_lib scans
              at_end_of_a_log beater' H1 H2)
    as (w & fList & regx & Hin & Hd & _ & Hm & _ & Hn & _).
  exists w, fList, regx. repeat split; try assumption; now apply Hm.
Defined.
